(** * DeepCogs: collection retrieval and comparative analytics

    A shallow embedding of the analytical core of the DeepCogs web
    application (TypeScript, Next.js):

    - the collection route handler   ([Collection.GET]),
    - the recommendations route      ([Recommendations.POST]),
    - the friend comparison handler  ([FriendCompare.handleSearch]).

    JavaScript values are modelled as follows.
    - Integers coming from the catalog (ids, counts, totals) are [Z].
    - The results of [/] and [*] are [Js.number]s: an exact rational or
      one of the three special values of IEEE arithmetic.  The rounding
      of doubles is not modelled; for integer operands below 2^40 the
      comparisons [< 10] and the ceiling of a quotient by 100 agree
      with the exact ones.
    - Strings are [string]s (sequences of bytes); the separators the
      code looks for are ASCII.  The methods [trim] and [toLowerCase],
      which follow Unicode, are parameters of the handler that calls
      them.
    - A [Set] is the list of its elements in insertion order.
    - A rejected promise or a thrown exception is an explicit failure
      value. *)

From Stdlib Require Import ZArith QArith Qround List String Ascii Bool Lia.
From Stdlib Require Import Sorting.Sorted Sorting.Permutation.
Import ListNotations.

Local Open Scope Z_scope.

(** ** JavaScript primitives *)

Module Js.

(** [x] is truthy: for a number, it is not zero. *)
Definition truthy (x : Z) : bool := negb (x =? 0).

(** Truthiness of a string: it is not empty. *)
Definition truthy_str (s : string) : bool :=
  match s with EmptyString => false | String _ _ => true end.

(** [a || b] on strings. *)
Definition or_str (a b : string) : string := if truthy_str a then a else b.

(** Truthiness of a value that may be [undefined]. *)
Definition truthy_opt (s : option string) : bool :=
  match s with Some v => truthy_str v | None => false end.

(** [l.slice(0, n)]. *)
Definition slice0 {A} (n : nat) (l : list A) : list A := firstn n l.

(** *** Numbers *)

Inductive number : Type :=
| Fin (q : Q)
| PosInf
| NegInf
| NaN.

Definition of_int (z : Z) : number := Fin (inject_Z z).

Definition neg_inf (n : number) : number :=
  match n with PosInf => NegInf | NegInf => PosInf | other => other end.

(** The infinity carrying the sign of [q] ([NaN] when [q] is zero). *)
Definition signed_inf (q : Q) : number :=
  match Qcompare q 0 with
  | Eq => NaN
  | Gt => PosInf
  | Lt => NegInf
  end.

(** [a / b].  A zero divisor is the positive zero. *)
Definition div (a b : number) : number :=
  match a, b with
  | NaN, _ | _, NaN => NaN
  | Fin x, Fin y => if Qeq_bool y 0 then signed_inf x else Fin (x / y)
  | Fin _, (PosInf | NegInf) => Fin 0
  | (PosInf | NegInf), (PosInf | NegInf) => NaN
  | inf, Fin y =>
      match Qcompare y 0 with Lt => neg_inf inf | _ => inf end
  end.

(** [a * b]. *)
Definition mul (a b : number) : number :=
  match a, b with
  | NaN, _ | _, NaN => NaN
  | Fin x, Fin y => Fin (x * y)
  | Fin x, inf | inf, Fin x =>
      match Qcompare x 0 with
      | Eq => NaN
      | Gt => inf
      | Lt => neg_inf inf
      end
  | PosInf, PosInf | NegInf, NegInf => PosInf
  | PosInf, NegInf | NegInf, PosInf => NegInf
  end.

(** [a < b]: false as soon as one side is [NaN]. *)
Definition ltb (a b : number) : bool :=
  match a, b with
  | NaN, _ | _, NaN => false
  | Fin x, Fin y => match Qcompare x y with Lt => true | _ => false end
  | NegInf, (Fin _ | PosInf) => true
  | Fin _, PosInf => true
  | _, _ => false
  end.

(** [Math.round]: the nearest integer, halves going up. *)
Definition Math_round (a : number) : number :=
  match a with
  | Fin q => of_int (Qfloor (q + (1 # 2)))
  | other => other
  end.

(** [Math.ceil] of [a / b] for integers [a] and [b > 0]. *)
Definition ceil_div (a b : Z) : Z := - ((- a) / b).

(** *** Sets, in insertion order *)

Section JsSet.
Context {A : Type}.
Variable eqb : A -> A -> bool.

Definition has (s : list A) (x : A) : bool := existsb (eqb x) s.

Definition add (s : list A) (x : A) : list A :=
  if has s x then s else (s ++ [x])%list.

(** [new Set(l)]: the elements of [l] are added one after the other. *)
Definition new_Set (l : list A) : list A := fold_left add l [].

Definition size (s : list A) : Z := Z.of_nat (List.length s).

(** [l.includes(x)]. *)
Definition includes (l : list A) (x : A) : bool := existsb (eqb x) l.

End JsSet.

(** *** Strings *)

(** [s.slice(k)]: [s] without its first [k] characters. *)
Fixpoint drop (k : nat) (s : string) : string :=
  match k, s with
  | O, _ => s
  | S k', String _ s' => drop k' s'
  | S _, EmptyString => EmptyString
  end.

(** Puts a character in front of the segment being read. *)
Definition push_char (c : ascii) (segs : list string) : list string :=
  match segs with
  | [] => [String c EmptyString]
  | x :: xs => String c x :: xs
  end.

(** Reads [s] from left to right; [skip] characters of a separator that
    was just recognised are still to be passed over. *)
Fixpoint split_from (sep : string) (skip : nat) (s : string) : list string :=
  match s with
  | EmptyString => [EmptyString]
  | String c s' =>
      match skip with
      | S k => split_from sep k s'
      | O =>
          if prefix sep s
          then EmptyString :: split_from sep (String.length sep - 1) s'
          else push_char c (split_from sep 0 s')
      end
  end.

(** [s.split(sep)] for a separator that is not empty. *)
Definition split (sep s : string) : list string := split_from sep 0 s.

(** [l.join(sep)]. *)
Fixpoint join (sep : string) (l : list string) : string :=
  match l with
  | [] => EmptyString
  | [x] => x
  | x :: xs => (x ++ sep ++ join sep xs)%string
  end.

End Js.

(** ** The recommendations route: [POST /api/recommendations] *)

Module Recommendations.

Local Open Scope string_scope.

(** Major genres to consider for recommendations. *)
Definition MAJOR_GENRES : list string :=
  [ "Electronic";
    "Rock";
    "Jazz";
    "Hip Hop";
    "Classical";
    "Folk, World, & Country";
    "Funk / Soul";
    "Pop";
    "Reggae";
    "Blues";
    "Latin";
    "Stage & Screen" ].

(** An entry of [RecommendationRequest.genres]. *)
Record GenreCount : Type := { name : string; count : Z }.

Record RecommendationRequest : Type :=
  { genres : list GenreCount; ownedMasterIds : list Z }.

(** An entry of [genrePercentages]: the entry of the request with its
    share of the collection. *)
Record GenrePercentage : Type :=
  { g_name : string; g_count : Z; percentage : Js.number }.

Definition totalReleases (genres : list GenreCount) : Z :=
  fold_left (fun sum g => sum + count g) genres 0.

Definition genrePercentages (genres : list GenreCount) : list GenrePercentage :=
  map (fun g =>
         {| g_name := name g;
            g_count := count g;
            percentage :=
              Js.mul (Js.div (Js.of_int (count g))
                             (Js.of_int (totalReleases genres)))
                     (Js.of_int 100) |})
      genres.

(** The test of the filter over [MAJOR_GENRES]:
    [!userGenre || userGenre.percentage < 10]. *)
Definition is_gap (genres : list GenreCount) (genre : string) : bool :=
  match find (fun g => g_name g =? genre) (genrePercentages genres) with
  | None => true
  | Some userGenre => Js.ltb (percentage userGenre) (Js.of_int 10)
  end.

(** Underrepresented major genres (less than 10% of the collection). *)
Definition gaps (genres : list GenreCount) : list string :=
  Js.slice0 3 (filter (is_gap genres) MAJOR_GENRES).

(** Also suggest more of their top genres. *)
Definition topGenres (genres : list GenreCount) : list string :=
  map g_name
      (Js.slice0 2
         (filter (fun g => Js.includes String.eqb MAJOR_GENRES (g_name g))
                 (genrePercentages genres))).

Definition genresToSearch (genres : list GenreCount) : list string :=
  Js.slice0 4 (Js.new_Set String.eqb (gaps genres ++ topGenres genres)%list).

(** A result of the catalog search.  Only the fields that decide the
    selection and the artist and title are kept; [year], [thumb],
    [genre], [style] and [community] are copied with a default. *)
Record SearchResult : Type :=
  { r_id : Z; r_master_id : option Z; r_title : string }.

(** A recommended release. *)
Record Release : Type :=
  { id : Z; masterId : Z; title : string; artist : string }.

Record Bucket : Type :=
  { genre : string; reason : string; releases : list Release }.

(** [r.master_id || r.id]. *)
Definition resolved_master_id (r : SearchResult) : Z :=
  match r_master_id r with
  | Some m => if Js.truthy m then m else r_id r
  | None => r_id r
  end.

(** The [map] callback of the search results. *)
Definition format_result (r : SearchResult) : Release :=
  match Js.split " - " (Js.or_str (r_title r) "") with
  | artist :: titleParts =>
      {| id := r_id r;
         masterId := resolved_master_id r;
         title :=
           Js.or_str (Js.join " - " titleParts)
                     (Js.or_str (r_title r) "Unknown");
         artist := Js.or_str artist "Unknown Artist" |}
  | [] =>
      (* [split] never returns an empty array; here [artist] would be
         [undefined]. *)
      {| id := r_id r;
         masterId := resolved_master_id r;
         title := Js.or_str (r_title r) "Unknown";
         artist := "Unknown Artist" |}
  end.

(** What [client.search(genre, "master")] does: it throws, or answers
    with an object whose [results] may be missing. *)
Inductive SearchOutcome : Type :=
| SearchThrows
| SearchAnswers (results : option (list SearchResult)).

(** The callback of [genresToSearch.map]: a bucket, or [null]. *)
Definition searchPromise (search : string -> SearchOutcome)
    (gap_list : list string) (ownedSet : list Z) (genre : string)
    : option Bucket :=
  let isGap := Js.includes String.eqb gap_list genre in
  let reason :=
    if isGap
    then "Expand your horizons - you have few " ++ genre ++ " releases"
    else "More of what you love - " ++ genre in
  match search genre with
  | SearchThrows => None
  | SearchAnswers res =>
      let results := match res with Some l => l | None => [] end in
      let filtered :=
        map format_result
            (Js.slice0 8
               (filter (fun r =>
                          let masterId := resolved_master_id r in
                          Js.truthy masterId
                          && negb (Js.has Z.eqb ownedSet masterId))
                       results)) in
      if (0 <? Z.of_nat (List.length filtered))%Z
      then Some {| genre := genre; reason := reason; releases := filtered |}
      else None
  end.

(** [results.filter((r) => r !== null)]. *)
Fixpoint non_null {A} (l : list (option A)) : list A :=
  match l with
  | [] => []
  | Some x :: l' => x :: non_null l'
  | None :: l' => non_null l'
  end.

(** What the handler reads: the environment, the cookies, the body of
    the request ([None] when [request.json()] throws) and the catalog
    client. *)
Record Request : Type :=
  { consumerKey : option string;
    consumerSecret : option string;
    accessToken : option string;
    accessTokenSecret : option string;
    body : option RecommendationRequest;
    search : string -> SearchOutcome }.

Inductive Response : Type :=
| ErrorResponse (error : string) (status : Z)
| Recommended (recommendations : list Bucket)
              (analyzedGenres : list string)
              (gap_list : list string).

Definition POST (request : Request) : Response :=
  if negb (Js.truthy_opt (consumerKey request))
     || negb (Js.truthy_opt (consumerSecret request))
  then ErrorResponse "Discogs credentials not configured" 500
  else if negb (Js.truthy_opt (accessToken request))
          || negb (Js.truthy_opt (accessTokenSecret request))
  then ErrorResponse "Not authenticated" 401
  else
    match body request with
    | None => ErrorResponse "Failed to generate recommendations" 500
    | Some b =>
        let gap_list := gaps (genres b) in
        let to_search := genresToSearch (genres b) in
        let ownedSet := Js.new_Set Z.eqb (ownedMasterIds b) in
        let results :=
          map (searchPromise (search request) gap_list ownedSet) to_search in
        Recommended (non_null results) to_search gap_list
    end.

End Recommendations.

(** ** Catalog data *)

Module Discogs.

(** Modelled from the spec: the type [DiscogsRelease] of [@/lib/discogs],
    whose declaration is not among the sources.  An item of a collection
    carries its catalog identifier and, under [basic_information], the
    identifier of its master release and its title.  A release without a
    master has [master_id] 0, which is falsy. *)
Record BasicInformation : Type :=
  { id : Z; master_id : Z; title : string }.

Record DiscogsRelease : Type :=
  { instance_id : Z; basic_information : BasicInformation }.

End Discogs.

(** ** The collection route: [GET /api/collection] *)

Module Collection.

Import Discogs.
Local Open Scope string_scope.

(** A page of a collection, as the catalog client returns it. *)
Record Page : Type :=
  { releases : list DiscogsRelease; pagination_items : Z }.

(** A page-based read operation of the client: user name, folder, page
    and page size; [None] when the call throws. *)
Definition PageReader : Type := string -> Z -> Z -> Z -> option Page.

(** What the handler does to the outside, in order. *)
Inductive Event : Type :=
| GetCollection (page per_page : Z)
| GetPublicCollection (page per_page : Z)
| Sleep (ms : Z).

(** Computations that log their events and may throw; the log survives
    an exception. *)
Definition M (A : Type) : Type := list Event -> option A * list Event.

Definition ret {A} (x : A) : M A := fun log => (Some x, log).

Definition bind {A B} (c : M A) (k : A -> M B) : M B :=
  fun log =>
    match c log with
    | (Some x, log') => k x log'
    | (None, log') => (None, log')
    end.

Definition emit (e : Event) : M unit := fun log => (Some tt, (log ++ [e])%list).

Definition lift {A} (o : option A) : M A := fun log => (o, log).

Notation "x <- c ;; k" := (bind c (fun x => k))
  (at level 61, c at next level, right associativity).
Notation "c ;;; k" := (bind c (fun _ => k))
  (at level 61, right associativity).

(** The two clients differ in the read operation they call. *)
Record Client : Type :=
  { read : PageReader; event : Z -> Z -> Event }.

Definition get_page (client : Client) (username : string) (page : Z) : M Page :=
  emit (event client page 100) ;;;
  lift (read client username 0 page 100).

Definition pagesToFetch (total : Z) : Z := Z.min (Js.ceil_div total 100) 5.

(** The [for] loop: [n] more pages from [page] on, each followed by a
    small delay to respect rate limits. *)
Fixpoint fetch_pages (client : Client) (username : string)
    (n : nat) (page : Z) (acc : list DiscogsRelease) : M (list DiscogsRelease) :=
  match n with
  | O => ret acc
  | S n' =>
      pageData <- get_page client username page ;;
      emit (Sleep 100) ;;;
      fetch_pages client username n' (page + 1) (acc ++ releases pageData)%list
  end.

(** One branch of the handler: the first page gives the total count,
    then pages 2 to [pagesToFetch]. *)
Definition fetch_collection (client : Client) (username : string)
    : M (list DiscogsRelease * Z) :=
  firstPage <- get_page client username 1 ;;
  let total := pagination_items firstPage in
  all <- fetch_pages client username
           (Z.to_nat (pagesToFetch total - 1)) 2 (releases firstPage) ;;
  ret (all, total).

Record Request : Type :=
  { consumerKey : option string;
    consumerSecret : option string;
    username : option string;
    accessToken : option string;
    accessTokenSecret : option string;
    getCollection : PageReader;
    getPublicCollection : PageReader }.

Inductive Response : Type :=
| ErrorResponse (error : string) (status : Z)
| Fetched (releases : list DiscogsRelease) (total fetched : Z).

(** The client the handler builds: authenticated when both tokens are
    there, simple otherwise. *)
Definition client_of (request : Request) : Client :=
  if Js.truthy_opt (accessToken request)
     && Js.truthy_opt (accessTokenSecret request)
  then {| read := getCollection request; event := GetCollection |}
  else {| read := getPublicCollection request; event := GetPublicCollection |}.

(** The handler: its response and the events it caused. *)
Definition GET (request : Request) : Response * list Event :=
  if negb (Js.truthy_opt (consumerKey request))
     || negb (Js.truthy_opt (consumerSecret request))
  then (ErrorResponse "Discogs credentials not configured" 500, [])
  else
    match username request with
    | None => (ErrorResponse "Username is required" 400, [])
    | Some user =>
        if negb (Js.truthy_str user)
        then (ErrorResponse "Username is required" 400, [])
        else
          match fetch_collection (client_of request) user [] with
          | (Some (all, total), log) =>
              (Fetched all total (Z.of_nat (List.length all)), log)
          | (None, log) =>
              (ErrorResponse "Failed to fetch collection" 500, log)
          end
    end.

(** The pages [first], [first + 1], ... ([n] of them). *)
Fixpoint page_numbers (n : nat) (first : Z) : list Z :=
  match n with
  | O => []
  | S n' => first :: page_numbers n' (first + 1)
  end.

(** The events of reading the pages [ps] in the loop, one after the
    other. *)
Definition page_events (client : Client) (ps : list Z) : list Event :=
  flat_map (fun p => [event client p 100; Sleep 100]) ps.

End Collection.

(** ** The friend comparison: [handleSearch] of [FriendCompare] *)

Module FriendCompare.

Import Discogs.
Local Open Scope string_scope.

Record WantlistItem : Type :=
  { w_id : Z; w_master_id : Z; w_title : string }.

(** [matchedWant] is what [find] returned, which may be [undefined]. *)
Record TradeOpportunity : Type :=
  { release : DiscogsRelease; matchedWant : option WantlistItem }.

(** The result shown to the user ([genreOverlap], a chart of genre
    counts, is left out). *)
Record ComparisonResult : Type :=
  { friendUsername : string;
    friendCollection : list DiscogsRelease;
    overlap : list DiscogsRelease;
    onlyMe : list DiscogsRelease;
    onlyFriend : list DiscogsRelease;
    compatibilityScore : Js.number;
    youCanOffer : list TradeOpportunity;
    theyCanOffer : list TradeOpportunity }.

Definition master (r : DiscogsRelease) : Z := master_id (basic_information r).

(** [new Set(collection.map((r) => r.basic_information.master_id))]. *)
Definition masterIds (collection : list DiscogsRelease) : list Z :=
  Js.new_Set Z.eqb (map master collection).

Definition overlapMasterIds (mine theirs : list DiscogsRelease) : list Z :=
  Js.new_Set Z.eqb
    (filter (fun id => Js.truthy id && Js.has Z.eqb (masterIds theirs) id)
            (masterIds mine)).

Definition compute_overlap (mine theirs : list DiscogsRelease)
    : list DiscogsRelease :=
  filter (fun r => Js.has Z.eqb (overlapMasterIds mine theirs) (master r)) mine.

(** The filter of [onlyMe] and [onlyFriend], over [collection]. *)
Definition only_in (collection : list DiscogsRelease) (overlapIds : list Z)
    : list DiscogsRelease :=
  filter (fun r => Js.truthy (master r)
                   && negb (Js.has Z.eqb overlapIds (master r)))
         collection.

Definition compute_onlyMe (mine theirs : list DiscogsRelease) :=
  only_in mine (overlapMasterIds mine theirs).

Definition compute_onlyFriend (mine theirs : list DiscogsRelease) :=
  only_in theirs (overlapMasterIds mine theirs).

Definition totalUnique (mine theirs : list DiscogsRelease) : Z :=
  Js.size (Js.new_Set Z.eqb (masterIds mine ++ masterIds theirs)%list).

(** The score: the share of the shared masters among all masters, in
    percent, rounded.  The quotient is exact here; the doubles of the
    code can fall just below a half that the exact value reaches (23
    shared masters of 40 give 57 there and 58 here). *)
Definition compute_score (mine theirs : list DiscogsRelease) : Js.number :=
  if (0 <? totalUnique mine theirs)%Z
  then Js.Math_round
         (Js.mul (Js.div (Js.of_int (Js.size (overlapMasterIds mine theirs)))
                         (Js.of_int (totalUnique mine theirs)))
                 (Js.of_int 100))
  else Js.of_int 0.

(** The releases of [collection] that are on the wantlist [wants], each
    with the entry [find] returns for it. *)
Definition opportunities (collection : list DiscogsRelease)
    (wants : list WantlistItem) : list TradeOpportunity :=
  let wantMasterIds :=
    Js.new_Set Z.eqb (filter Js.truthy (map w_master_id wants)) in
  map (fun r =>
         {| release := r;
            matchedWant := find (fun w => (w_master_id w =? master r)%Z) wants |})
      (filter (fun r => Js.has Z.eqb wantMasterIds (master r)) collection).

(** What a [fetch] of one of the application's routes comes to: the
    promise rejects, the response is not [ok], reading its body as JSON
    rejects, or the body is there, with or without the field asked for. *)
Inductive Reply (A : Type) : Type :=
| NetworkError (message : string)
| NotOk
| BadJson (message : string)
| Body (field : option A).

Arguments NetworkError {A} message.
Arguments NotOk {A}.
Arguments BadJson {A} message.
Arguments Body {A} field.

(** [data.field || []]. *)
Definition or_empty {A} (field : option (list A)) : list A :=
  match field with Some l => l | None => [] end.

(** The reply makes the code throw. *)
Definition throws {A} (reply : Reply A) : bool :=
  match reply with
  | NetworkError _ | BadJson _ => true
  | NotOk | Body _ => false
  end.

(** One direction of the trade, once its wantlist was asked for. *)
Definition direction (collection : list DiscogsRelease)
    (reply : Reply (list WantlistItem)) : list TradeOpportunity :=
  match reply with
  | Body field => opportunities collection (or_empty field)
  | _ => []
  end.

(** What the handler asks the application's routes for, in order. *)
Inductive Fetch : Type :=
| FetchCollection (user : string)
| FetchWantlist (user : string).

(** The inner [try]: both lists start empty; the friend's wantlist is
    asked for first, then mine; an exception leaves what is not yet
    assigned as it is and skips what is not yet asked for.  The result
    is the two lists and the requests made. *)
Definition trade (fetchWantlist : string -> Reply (list WantlistItem))
    (myUsername friend : string) (mine theirs : list DiscogsRelease)
    : (list TradeOpportunity * list TradeOpportunity) * list Fetch :=
  let friendReply := fetchWantlist friend in
  if throws friendReply then (([], []), [FetchWantlist friend])
  else
    let youCanOffer := direction mine friendReply in
    let myReply := fetchWantlist myUsername in
    if throws myReply
    then ((youCanOffer, []), [FetchWantlist friend; FetchWantlist myUsername])
    else ((youCanOffer, direction theirs myReply),
          [FetchWantlist friend; FetchWantlist myUsername]).

(** The two string methods of the platform that the handler calls.
    They follow Unicode and are taken as they are. *)
Record StringMethods : Type :=
  { trim : string -> string; toLowerCase : string -> string }.

(** What the handler leaves in the component's state. *)
Inductive Outcome : Type :=
| Nothing
| SetError (message : string)
| SetResult (result : ComparisonResult).

(** The handler: what it leaves in the state, and the requests it
    made. *)
Definition handleSearch (methods : StringMethods)
    (myUsername : string) (myCollection : list DiscogsRelease)
    (friend : string)
    (fetchCollection : string -> Reply (list DiscogsRelease))
    (fetchWantlist : string -> Reply (list WantlistItem))
    : Outcome * list Fetch :=
  if negb (Js.truthy_str (trim methods friend)) then (Nothing, [])
  else if String.eqb (toLowerCase methods friend)
                     (toLowerCase methods myUsername)
  then (SetError "You can't compare with yourself!", [])
  else
    match fetchCollection friend with
    | NetworkError message | BadJson message =>
        (SetError message, [FetchCollection friend])
    | NotOk =>
        (SetError "Failed to fetch friend's collection",
         [FetchCollection friend])
    | Body field =>
        let theirs := or_empty field in
        if (Z.of_nat (List.length theirs) =? 0)%Z
        then (SetError "Friend's collection is empty or private",
              [FetchCollection friend])
        else
          let offers := trade fetchWantlist myUsername friend
                              myCollection theirs in
          (SetResult
             {| friendUsername := friend;
                friendCollection := theirs;
                overlap := compute_overlap myCollection theirs;
                onlyMe := compute_onlyMe myCollection theirs;
                onlyFriend := compute_onlyFriend myCollection theirs;
                compatibilityScore := compute_score myCollection theirs;
                youCanOffer := fst (fst offers);
                theyCanOffer := snd (fst offers) |},
           FetchCollection friend :: snd offers)
    end.

(** *** The string methods on ASCII names *)

(** White space that [trim] removes, among the ASCII characters. *)
Definition is_space (c : ascii) : bool :=
  match nat_of_ascii c with
  | 9%nat | 10%nat | 11%nat | 12%nat | 13%nat | 32%nat => true
  | _ => false
  end.

Fixpoint trim_start (s : string) : string :=
  match s with
  | EmptyString => EmptyString
  | String c s' => if is_space c then trim_start s' else s
  end.

Fixpoint trim_end (s : string) : string :=
  match s with
  | EmptyString => EmptyString
  | String c s' =>
      match trim_end s' with
      | EmptyString => if is_space c then EmptyString else String c EmptyString
      | rest => String c rest
      end
  end.

Definition lower (c : ascii) : ascii :=
  let n := nat_of_ascii c in
  if ((65 <=? n) && (n <=? 90))%nat then ascii_of_nat (n + 32) else c.

Fixpoint lower_all (s : string) : string :=
  match s with
  | EmptyString => EmptyString
  | String c s' => String (lower c) (lower_all s')
  end.

(** What [trim] and [toLowerCase] do to a name made of ASCII characters
    only; the sample runs use such names. *)
Definition ascii_methods : StringMethods :=
  {| trim := fun s => trim_end (trim_start s); toLowerCase := lower_all |}.

End FriendCompare.

(** ** The specification's vocabulary *)

Module SpecTerms.

Import Recommendations.
Local Open Scope string_scope.

(** The count the tally gives for [genre], if it has an entry for it. *)
Definition tally_count (genres : list GenreCount) (genre : string) : option Z :=
  option_map count (find (fun e => name e =? genre) genres).

(** [genre] has no entry in the tally. *)
Definition absent (genres : list GenreCount) (genre : string) : bool :=
  negb (existsb (fun e => name e =? genre) genres).

(** The sum of all counts of the tally. *)
Fixpoint sum_of_counts (genres : list GenreCount) : Z :=
  match genres with
  | [] => 0%Z
  | e :: rest => (count e + sum_of_counts rest)%Z
  end.

(** A gap candidate: absent from the tally, or with a share of the
    collection below 10 percent, [100 * count / sum of counts < 10]. *)
Definition gap_candidate (genres : list GenreCount) (genre : string) : bool :=
  match tally_count genres genre with
  | None => true
  | Some c => (100 * c <? 10 * sum_of_counts genres)%Z
  end.

(** [l1] is [l2] with some elements left out, the order kept. *)
Inductive subsequence {A} : list A -> list A -> Prop :=
| sub_nil : subsequence [] []
| sub_skip x l1 l2 : subsequence l1 l2 -> subsequence l1 (x :: l2)
| sub_keep x l1 l2 : subsequence l1 l2 -> subsequence (x :: l1) (x :: l2).

(** The text before and after the first occurrence of [sep] in [s]. *)
Fixpoint cut (sep s : string) : option (string * string) :=
  match s with
  | EmptyString => None
  | String c s' =>
      if prefix sep s then Some (EmptyString, Js.drop (String.length sep) s)
      else match cut sep s' with
           | Some (a, b) => Some (String c a, b)
           | None => None
           end
  end.

End SpecTerms.

(** ** Sample inputs *)

Module Samples.

Import Recommendations.
Local Open Scope string_scope.

(** A collection of rock records only. *)
Definition rock_only : list GenreCount := [ {| name := "Rock"; count := 100 |} ].

(** A tally whose only entry counts nothing. *)
Definition rock_none : list GenreCount := [ {| name := "Rock"; count := 0 |} ].

(** A few jazz records among many rock records. *)
Definition jazz_and_rock : list GenreCount :=
  [ {| name := "Jazz"; count := 5 |}; {| name := "Rock"; count := 95 |} ].

(** A search result whose title has no separator. *)
Definition plain_title : SearchResult :=
  {| r_id := 7; r_master_id := Some 7; r_title := "Foo" |}.

Definition always_answers (results : list SearchResult) (genre : string)
    : SearchOutcome := SearchAnswers (Some results).

(** An authenticated request for the tally [rock_only]. *)
Definition rock_request : Request :=
  {| consumerKey := Some "key";
     consumerSecret := Some "secret";
     accessToken := Some "token";
     accessTokenSecret := Some "token secret";
     body := Some {| genres := rock_only; ownedMasterIds := [] |};
     search := always_answers [plain_title] |}.

End Samples.

(** *** Collections *)

Module CollectionSamples.

Import Discogs Collection.
Local Open Scope string_scope.

Definition record (n m : Z) : DiscogsRelease :=
  {| instance_id := n;
     basic_information := {| id := n; master_id := m; title := "Side A" |} |}.

(** A page of a collection of [total] items; each page shows one of
    them here. *)
Definition page_of (total p : Z) : Page :=
  {| releases := [record p p]; pagination_items := total |}.

(** A catalog of 150 items that answers every page. *)
Definition steady : PageReader := fun _ _ page _ => Some (page_of 150 page).

(** A catalog of 450 items that answers the first two pages only. *)
Definition flaky : PageReader :=
  fun _ _ page _ => if (page <=? 2)%Z then Some (page_of 450 page) else None.

Definition public_request (reader : PageReader) : Request :=
  {| consumerKey := Some "key";
     consumerSecret := Some "secret";
     username := Some "crate_digger";
     accessToken := None;
     accessTokenSecret := None;
     getCollection := reader;
     getPublicCollection := reader |}.

End CollectionSamples.

(** *** Two collectors *)

Module CompareSamples.

Import Discogs FriendCompare.
Local Open Scope string_scope.

Definition record := CollectionSamples.record.

Definition want (n m : Z) : WantlistItem :=
  {| w_id := n; w_master_id := m; w_title := "Side B" |}.

(** Two pressings of the same master, one in each collection. *)
Definition my_pressing : list DiscogsRelease := [record 1 10].
Definition their_pressing : list DiscogsRelease := [record 2 10].

(** A collection with a release that has a master and one that has
    none. *)
Definition with_orphan : list DiscogsRelease := [record 1 1; record 2 0].

(** A release without master, and a wantlist entry without master. *)
Definition orphan : list DiscogsRelease := [record 1 0].
Definition orphan_wanted : list WantlistItem := [want 9 0].

(** The friend's collection is served. *)
Definition serve_collection (_ : string) : Reply (list DiscogsRelease) :=
  Body (Some their_pressing).

(** The friend's wantlist cannot be reached; mine asks for master 10. *)
Definition friend_offline (user : string) : Reply (list WantlistItem) :=
  if user =? "me" then Body (Some [want 5 10])
  else NetworkError "Failed to fetch".

End CompareSamples.

(** ** Reading the event log of the collection route *)

Module CollectionLog.

Import Discogs Collection.
Local Open Scope string_scope.

(** The page an event asks the catalog for, if it is a request. *)
Definition requested_page (e : Event) : option Z :=
  match e with
  | GetCollection page _ | GetPublicCollection page _ => Some page
  | Sleep _ => None
  end.

(** The pages a log asks for, in order. *)
Fixpoint requested_pages (log : list Event) : list Z :=
  match log with
  | [] => []
  | e :: log' =>
      match requested_page e with
      | Some page => page :: requested_pages log'
      | None => requested_pages log'
      end
  end.

(** The request with the read operation it does not select replaced by
    [reader]: the public one when both tokens are there, the
    authenticated one otherwise. *)
Definition replace_unused_reader (request : Request) (reader : PageReader)
    : Request :=
  if Js.truthy_opt (accessToken request)
     && Js.truthy_opt (accessTokenSecret request)
  then {| consumerKey := consumerKey request;
          consumerSecret := consumerSecret request;
          username := username request;
          accessToken := accessToken request;
          accessTokenSecret := accessTokenSecret request;
          getCollection := getCollection request;
          getPublicCollection := reader |}
  else {| consumerKey := consumerKey request;
          consumerSecret := consumerSecret request;
          username := username request;
          accessToken := accessToken request;
          accessTokenSecret := accessTokenSecret request;
          getCollection := reader;
          getPublicCollection := getPublicCollection request |}.

(** Credentials and user name are there. *)
Definition ready (request : Request) : bool :=
  Js.truthy_opt (consumerKey request)
  && Js.truthy_opt (consumerSecret request)
  && Js.truthy_opt (username request).

(** The releases the catalog shows on a page, none when the request for
    the page fails. *)
Definition page_releases (client : Client) (user : string) (page : Z)
    : list DiscogsRelease :=
  match read client user 0 page 100 with
  | Some pageData => releases pageData
  | None => []
  end.

(** A catalog of 50 items that answers every page. *)
Definition small : PageReader :=
  fun _ _ page _ => Some (CollectionSamples.page_of 50 page).

(** A catalog that answers nothing. *)
Definition down : PageReader := fun _ _ _ _ => None.

End CollectionLog.

(** ** Reading the answer of the recommendations route *)

Module EngineTerms.

Import Recommendations.
Local Open Scope string_scope.

(** The request with another catalog search. *)
Definition with_search (request : Request)
    (search' : string -> SearchOutcome) : Request :=
  {| consumerKey := consumerKey request;
     consumerSecret := consumerSecret request;
     accessToken := accessToken request;
     accessTokenSecret := accessTokenSecret request;
     body := body request;
     search := search' |}.

(** The first bucket of [recs] for the genre [g], if there is one. *)
Definition bucket_of (g : string) (recs : list Bucket) : option Bucket :=
  find (fun b => genre b =? g) recs.

(** The reason the handler gives for a genre, given the gaps. *)
Definition reason_for (gap_list : list string) (g : string) : string :=
  if Js.includes String.eqb gap_list g
  then "Expand your horizons - you have few " ++ g ++ " releases"
  else "More of what you love - " ++ g.

(** A search result with artist and title. *)
Definition kind_of_blue : SearchResult :=
  {| r_id := 5; r_master_id := Some 5; r_title := "Miles Davis - Kind Of Blue" |}.

(** A catalog whose search answers for rock only. *)
Definition only_rock (g : string) : SearchOutcome :=
  if g =? "Rock" then SearchAnswers (Some [kind_of_blue]) else SearchThrows.

End EngineTerms.

(** ** The genre chart of a comparison: [calculateGenreComparison] *)

Module GenreComparison.

Local Open Scope string_scope.

(** What the function reads of a release: its field
    [basic_information.genres], which may be missing.  A collection is
    given by the fields of its releases, in order. *)
Definition GenresField : Type := option (list string).

(** An object used as a map from genre to count: its keys in the order
    they were first assigned, with their values.  This is how an object
    behaves for keys that are [plain]. *)
Definition Counts : Type := list (string * Z).

(** Names that every object inherits. *)
Definition inherited : list string :=
  [ "constructor"; "hasOwnProperty"; "isPrototypeOf"; "propertyIsEnumerable";
    "toLocaleString"; "toString"; "valueOf"; "__proto__";
    "__defineGetter__"; "__defineSetter__";
    "__lookupGetter__"; "__lookupSetter__" ].

Definition is_digit (c : ascii) : bool :=
  ((48 <=? nat_of_ascii c) && (nat_of_ascii c <=? 57))%nat.

Fixpoint all_digits (s : string) : bool :=
  match s with
  | EmptyString => true
  | String c s' => is_digit c && all_digits s'
  end.

(** A key for which an object is a plain map: not an inherited name,
    and not a number, which [Object.keys] would list first. *)
Definition plain (g : string) : bool :=
  negb (existsb (String.eqb g) inherited)
  && negb (Js.truthy_str g && all_digits g).

(** [counts[g]]. *)
Fixpoint get (counts : Counts) (g : string) : option Z :=
  match counts with
  | [] => None
  | (k, v) :: rest => if k =? g then Some v else get rest g
  end.

(** [counts[g] || 0]. *)
Definition get_or_0 (counts : Counts) (g : string) : Z :=
  match get counts g with
  | Some v => if Js.truthy v then v else 0
  | None => 0
  end.

(** [counts[g] = v]: a key that is there keeps its place. *)
Fixpoint set (counts : Counts) (g : string) (v : Z) : Counts :=
  match counts with
  | [] => [(g, v)]
  | (k, w) :: rest =>
      if k =? g then (k, v) :: rest else (k, w) :: set rest g v
  end.

(** [counts[g] = (counts[g] || 0) + 1]. *)
Definition count_genre (counts : Counts) (g : string) : Counts :=
  set counts g (get_or_0 counts g + 1).

(** [r.basic_information.genres?.forEach(...)]. *)
Definition count_release (counts : Counts) (field : GenresField) : Counts :=
  match field with
  | Some gs => fold_left count_genre gs counts
  | None => counts
  end.

(** [collection.forEach(...)], from the empty object. *)
Definition count_collection (collection : list GenresField) : Counts :=
  fold_left count_release collection [].

(** [Object.keys(counts)]. *)
Definition keys (counts : Counts) : list string := map fst counts.

Record GenreRow : Type :=
  { row_genre : string; myCount : Z; friendCount : Z }.

Definition combined (r : GenreRow) : Z := myCount r + friendCount r.

(** Puts [x], which came before the rows of [l], at its place in the
    sorted [l]: behind the rows with a larger combined count. *)
Fixpoint insert_row (x : GenreRow) (l : list GenreRow) : list GenreRow :=
  match l with
  | [] => [x]
  | y :: l' =>
      if (combined x <? combined y)%Z then y :: insert_row x l' else x :: l
  end.

(** [rows.sort((a, b) => b.myCount + b.friendCount
                          - (a.myCount + a.friendCount))]:
    the stable sort by decreasing combined count. *)
Fixpoint sort_rows (l : list GenreRow) : list GenreRow :=
  match l with
  | [] => []
  | x :: l' => insert_row x (sort_rows l')
  end.

Definition calculateGenreComparison (myCollection friendCollection : list GenresField)
    : list GenreRow :=
  let myGenres := count_collection myCollection in
  let friendGenres := count_collection friendCollection in
  let allGenres :=
    Js.new_Set String.eqb (keys myGenres ++ keys friendGenres)%list in
  Js.slice0 8
    (sort_rows
       (map (fun genre =>
               {| row_genre := genre;
                  myCount := get_or_0 myGenres genre;
                  friendCount := get_or_0 friendGenres genre |})
            allGenres)).

(** The row of the chart for a genre. *)
Definition row_of (mine theirs : list GenresField) (g : string) : GenreRow :=
  {| row_genre := g;
     myCount := get_or_0 (count_collection mine) g;
     friendCount := get_or_0 (count_collection theirs) g |}.

(** The genres of the chart before sorting: [Array.from(allGenres)]. *)
Definition allGenres (mine theirs : list GenresField) : list string :=
  Js.new_Set String.eqb
    (keys (count_collection mine) ++ keys (count_collection theirs))%list.

(** [a] may stand before [b] in the chart. *)
Definition before (a b : GenreRow) : Prop := (combined b <= combined a)%Z.

(** The genres of a collection, with repetitions, in order. *)
Definition genres_listed (collection : list GenresField) : list string :=
  flat_map (fun field => match field with Some gs => gs | None => [] end)
           collection.

(** How many times [g] is listed in a collection. *)
Definition occurrences (g : string) (collection : list GenresField) : Z :=
  Z.of_nat (count_occ string_dec (genres_listed collection) g).

(** Every genre listed in the collection is a plain key. *)
Definition plain_genres (collection : list GenresField) : Prop :=
  forall g, In g (genres_listed collection) -> plain g = true.

(** Two small collections. *)
Definition my_shelf : list GenresField :=
  [Some ["Jazz"; "Funk / Soul"]; None; Some ["Jazz"]].
Definition their_shelf : list GenresField :=
  [Some ["Rock"]; Some ["Jazz"; "Rock"]; Some ["Rock"]].

End GenreComparison.

(** ** Shares of a tally *)

Module GapTerms.

Import Recommendations SpecTerms.
Local Open Scope string_scope.

(** The count the tally gives for [g], 0 when it has no entry for it. *)
Definition share_count (genres : list GenreCount) (g : string) : Z :=
  match tally_count genres g with
  | Some c => c
  | None => 0%Z
  end.

(** The counts of the genres [names], added up. *)
Fixpoint sum_shares (genres : list GenreCount) (names : list string) : Z :=
  match names with
  | [] => 0%Z
  | g :: rest => (share_count genres g + sum_shares genres rest)%Z
  end.

(** A tally in which ten major genres hold a tenth of the collection
    each. *)
Definition ten_tenths : list GenreCount :=
  map (fun g => {| name := g; count := 1 |}) (firstn 10 MAJOR_GENRES).

End GapTerms.

(** *** Pressings *)

Module ScoreSamples.

Import Discogs.

(** Two pressings of the master 10 and one record of the master 20. *)
Definition two_pressings : list DiscogsRelease :=
  [CollectionSamples.record 1 10; CollectionSamples.record 2 10;
   CollectionSamples.record 3 20].

(** One pressing of each. *)
Definition one_pressing : list DiscogsRelease :=
  [CollectionSamples.record 4 20; CollectionSamples.record 5 10].

End ScoreSamples.

(** * Properties *)

(** ** Sets and lists *)

Module JsFacts.

Section SetFacts.
Context {A : Type}.
Variable eqb : A -> A -> bool.
Hypothesis eqb_eq : forall x y, eqb x y = true <-> x = y.

Lemma has_In (s : list A) (x : A) : Js.has eqb s x = true <-> In x s.
Proof.
  unfold Js.has. rewrite existsb_exists. split.
  - intros [y [Hy He]]. apply eqb_eq in He. now subst.
  - intros H. exists x. split; [assumption | now apply eqb_eq].
Qed.

Lemma has_false (s : list A) (x : A) : Js.has eqb s x = false <-> ~ In x s.
Proof.
  rewrite <- has_In. destruct (Js.has eqb s x); split; congruence.
Qed.

Lemma includes_In (l : list A) (x : A) : Js.includes eqb l x = true <-> In x l.
Proof. exact (has_In l x). Qed.

Lemma In_add (s : list A) (x y : A) : In y (Js.add eqb s x) <-> In y s \/ y = x.
Proof.
  unfold Js.add. destruct (Js.has eqb s x) eqn:E.
  - apply has_In in E. split; [tauto | intros [H | ->]; assumption].
  - rewrite in_app_iff. simpl. intuition congruence.
Qed.

Lemma NoDup_add (s : list A) (x : A) : NoDup s -> NoDup (Js.add eqb s x).
Proof.
  intros H. unfold Js.add. destruct (Js.has eqb s x) eqn:E; [assumption |].
  apply has_false in E. apply NoDup_app; [assumption | repeat constructor; tauto |].
  intros y Hy [<- | []]. contradiction.
Qed.

Lemma In_fold_add (l acc : list A) (y : A) :
  In y (fold_left (Js.add eqb) l acc) <-> In y acc \/ In y l.
Proof.
  revert acc. induction l as [| x l IH]; intros acc; simpl.
  - tauto.
  - rewrite IH, In_add. intuition congruence.
Qed.

Lemma NoDup_fold_add (l acc : list A) :
  NoDup acc -> NoDup (fold_left (Js.add eqb) l acc).
Proof.
  revert acc. induction l as [| x l IH]; intros acc H; simpl.
  - assumption.
  - apply IH. now apply NoDup_add.
Qed.

(** A set holds the elements of the list it was built from. *)
Lemma In_new_Set (l : list A) (y : A) : In y (Js.new_Set eqb l) <-> In y l.
Proof. unfold Js.new_Set. rewrite In_fold_add. simpl. tauto. Qed.

Lemma NoDup_new_Set (l : list A) : NoDup (Js.new_Set eqb l).
Proof. apply NoDup_fold_add. constructor. Qed.

(** Adding elements never disturbs those already there. *)
Lemma fold_add_prefix (l acc : list A) :
  exists rest, fold_left (Js.add eqb) l acc = (acc ++ rest)%list.
Proof.
  revert acc. induction l as [| x l IH]; intros acc; simpl.
  - exists []. now rewrite app_nil_r.
  - destruct (IH (Js.add eqb acc x)) as [rest Hr]. rewrite Hr.
    unfold Js.add. destruct (Js.has eqb acc x).
    + now exists rest.
    + exists (x :: rest). now rewrite <- app_assoc.
Qed.

Lemma fold_add_NoDup (l acc : list A) :
  NoDup (acc ++ l) -> fold_left (Js.add eqb) l acc = (acc ++ l)%list.
Proof.
  revert acc. induction l as [| x l IH]; intros acc H; simpl.
  - now rewrite app_nil_r.
  - assert (Hx : Js.has eqb acc x = false).
    { apply has_false. intros Hin. apply NoDup_remove_2 in H.
      apply H. apply in_or_app. now left. }
    unfold Js.add at 2. rewrite Hx.
    rewrite IH; rewrite <- app_assoc; [reflexivity | assumption].
Qed.

(** A list without repetition is the set built from it. *)
Lemma new_Set_NoDup (l : list A) : NoDup l -> Js.new_Set eqb l = l.
Proof. intros H. unfold Js.new_Set. now rewrite fold_add_NoDup. Qed.

(** A set built from [l1 ++ l2] starts with [l1] when [l1] has no
    repetition. *)
Lemma new_Set_app_prefix (l1 l2 : list A) :
  NoDup l1 -> exists rest, Js.new_Set eqb (l1 ++ l2) = (l1 ++ rest)%list.
Proof.
  intros H. unfold Js.new_Set. rewrite fold_left_app.
  fold (Js.new_Set eqb l1). rewrite (new_Set_NoDup l1 H).
  apply fold_add_prefix.
Qed.

(** Building a set from a set changes nothing. *)
Lemma new_Set_idem (l : list A) :
  Js.new_Set eqb (Js.new_Set eqb l) = Js.new_Set eqb l.
Proof. apply new_Set_NoDup, NoDup_new_Set. Qed.

End SetFacts.

Lemma filter_NoDup {A} (f : A -> bool) (l : list A) : NoDup l -> NoDup (filter f l).
Proof.
  induction 1 as [| x l Hx Hl IH]; simpl; [constructor |].
  destruct (f x); [constructor |]; try assumption.
  rewrite filter_In. tauto.
Qed.

Lemma firstn_NoDup {A} (n : nat) (l : list A) : NoDup l -> NoDup (firstn n l).
Proof.
  intros H. rewrite <- (firstn_skipn n l) in H.
  now apply NoDup_app_remove_r in H.
Qed.

Lemma firstn_subset {A} (n : nat) (l : list A) (x : A) :
  In x (firstn n l) -> In x l.
Proof.
  intros H. rewrite <- (firstn_skipn n l). apply in_or_app. now left.
Qed.

End JsFacts.

(** ** Numbers *)

Module NumberFacts.

(** For a positive total the share is below 10 percent exactly when
    [100 * c < 10 * t]. *)
Lemma percentage_lt_10 (c t : Z) :
  0 < t ->
  Js.ltb (Js.mul (Js.div (Js.of_int c) (Js.of_int t)) (Js.of_int 100))
         (Js.of_int 10)
  = (100 * c <? 10 * t).
Proof.
  intros Ht. destruct t as [| p | p]; try lia.
  unfold Js.of_int, Js.div, Js.mul, Js.ltb.
  replace (Qeq_bool (inject_Z (Z.pos p)) 0) with false by reflexivity.
  unfold Qcompare, Qdiv, Qmult, Qinv, inject_Z. cbn [Qnum Qden].
  rewrite Pos.mul_1_l, Pos.mul_1_r.
  destruct (Z.ltb_spec (100 * c) (10 * Z.pos p)) as [H | H].
  - replace (c * 1 * 100 * 1 ?= 10 * Z.pos p) with Lt; [reflexivity |].
    symmetry. apply Z.compare_lt_iff. lia.
  - destruct (c * 1 * 100 * 1 ?= 10 * Z.pos p) eqn:E; try reflexivity.
    rewrite Z.compare_lt_iff in E. lia.
Qed.

(** With a total of zero and a count of zero the share is [NaN]. *)
Lemma percentage_zero_total :
  Js.mul (Js.div (Js.of_int 0) (Js.of_int 0)) (Js.of_int 100) = Js.NaN.
Proof. reflexivity. Qed.

(** [ceil_div a 100] is the least number of hundreds that cover [a]. *)
Lemma ceil_div_100 (a : Z) :
  100 * (Js.ceil_div a 100 - 1) < a <= 100 * Js.ceil_div a 100.
Proof.
  unfold Js.ceil_div.
  pose proof (Z.div_mod (- a) 100 ltac:(lia)) as Hd.
  pose proof (Z.mod_pos_bound (- a) 100 ltac:(lia)) as Hm.
  lia.
Qed.

End NumberFacts.

(** ** The genre analyzer *)

Module GenreFacts.

Import Recommendations SpecTerms.
Local Open Scope string_scope.

Lemma MAJOR_GENRES_NoDup : NoDup MAJOR_GENRES.
Proof.
  unfold MAJOR_GENRES.
  repeat (constructor; [simpl; intuition discriminate |]). constructor.
Qed.

Lemma gaps_NoDup (genres : list GenreCount) : NoDup (gaps genres).
Proof.
  apply JsFacts.firstn_NoDup, JsFacts.filter_NoDup, MAJOR_GENRES_NoDup.
Qed.

Lemma gaps_length (genres : list GenreCount) : (List.length (gaps genres) <= 3)%nat.
Proof. apply firstn_le_length. Qed.

(** Looking a genre up among the percentages is looking it up in the
    tally. *)
Lemma find_percentage (f : GenreCount -> Js.number)
    (l : list GenreCount) (genre : string) :
  find (fun g => g_name g =? genre)
       (map (fun g => {| g_name := name g; g_count := count g;
                         percentage := f g |}) l)
  = option_map (fun g => {| g_name := name g; g_count := count g;
                            percentage := f g |})
               (find (fun e => name e =? genre) l).
Proof.
  induction l as [| e l IH]; simpl; [reflexivity |].
  destruct (name e =? genre); [reflexivity | exact IH].
Qed.

Lemma total_from_sum (l : list GenreCount) (acc : Z) :
  fold_left (fun sum g => (sum + count g)%Z) l acc
  = (acc + sum_of_counts l)%Z.
Proof.
  revert acc. induction l as [| e l IH]; intros acc; simpl; [lia |].
  rewrite IH. lia.
Qed.

(** The total the handler computes is the sum of the counts. *)
Lemma total_is_sum (genres : list GenreCount) :
  totalReleases genres = sum_of_counts genres.
Proof. unfold totalReleases. now rewrite total_from_sum. Qed.

Lemma is_gap_candidate (genres : list GenreCount) (genre : string) :
  (0 < totalReleases genres)%Z ->
  is_gap genres genre = gap_candidate genres genre.
Proof.
  intros Ht. unfold is_gap, gap_candidate, tally_count, genrePercentages.
  rewrite find_percentage, <- total_is_sum.
  destruct (find (fun e => name e =? genre) genres) as [e |]; simpl;
    [| reflexivity].
  now apply NumberFacts.percentage_lt_10.
Qed.

Lemma subsequence_nil {A} (l : list A) : subsequence [] l.
Proof. induction l; constructor; assumption. Qed.

Lemma subsequence_firstn_filter {A} (f : A -> bool) (l : list A) (n : nat) :
  subsequence (firstn n (filter f l)) l.
Proof.
  revert n. induction l as [| x l IH]; intros n; simpl.
  - rewrite firstn_nil. constructor.
  - destruct (f x).
    + destruct n; simpl; [apply subsequence_nil | constructor; apply IH].
    + constructor. apply IH.
Qed.

Lemma tally_count_absent (genres : list GenreCount) (genre : string) :
  tally_count genres genre = None <-> absent genres genre = true.
Proof.
  unfold tally_count, absent.
  induction genres as [| e l IH]; simpl; [tauto |].
  destruct (name e =? genre); simpl; [split; discriminate | exact IH].
Qed.

Lemma total_from (l : list GenreCount) (acc : Z) :
  fold_left (fun sum g => (sum + count g)%Z) l acc
  = (acc + fold_left (fun sum g => (sum + count g)%Z) l 0)%Z.
Proof.
  revert acc. induction l as [| e l IH]; intros acc; simpl; [lia |].
  rewrite IH, (IH (count e)). lia.
Qed.

Lemma total_nonneg (l : list GenreCount) :
  (forall e, In e l -> (0 <= count e)%Z) -> (0 <= totalReleases l)%Z.
Proof.
  unfold totalReleases. induction l as [| e l IH]; intros H; simpl; [lia |].
  rewrite total_from. specialize (H e (or_introl eq_refl)) as He.
  assert (0 <= fold_left (fun sum g => sum + count g) l 0)%Z; [| lia].
  apply IH. intros e' He'. apply H. now right.
Qed.

(** Counts that are not negative and sum to zero are all zero. *)
Lemma total_zero_counts (l : list GenreCount) :
  (forall e, In e l -> (0 <= count e)%Z) ->
  totalReleases l = 0%Z ->
  forall e, In e l -> count e = 0%Z.
Proof.
  unfold totalReleases. induction l as [| e l IH]; intros H Ht e' He'.
  - destruct He'.
  - simpl in Ht. rewrite total_from in Ht.
    assert (Hl : forall x, In x l -> (0 <= count x)%Z)
      by (intros x Hx; apply H; now right).
    pose proof (total_nonneg l Hl) as Hn. unfold totalReleases in Hn.
    pose proof (H e (or_introl eq_refl)) as He.
    destruct He' as [<- | He']; [lia |].
    apply IH; [assumption | lia | assumption].
Qed.

(** C7.  For a tally of counts that are not negative, with a positive
    sum of at most 2^40, the total the handler computes is this sum,
    and the gaps are the first three, at most, of the twelve major
    genres, taken in the order of the reference list, that are gap
    candidates: absent from the tally or with
    [100 * count < 10 * sum of counts].  Every absent major genre is a
    candidate, there are never more than three gaps, and the gaps come
    in the order of the reference list.  (Within this bound the doubles
    of the code compare as the exact quotients do.) *)
Theorem gaps_first_three_candidates (genres : list GenreCount) :
  (forall e, In e genres -> (0 <= count e)%Z) ->
  (0 < sum_of_counts genres <= 2 ^ 40)%Z ->
  totalReleases genres = sum_of_counts genres
  /\ gaps genres = firstn 3 (filter (gap_candidate genres) MAJOR_GENRES)
  /\ List.length MAJOR_GENRES = 12%nat
  /\ (List.length (gaps genres) <= 3)%nat
  /\ subsequence (gaps genres) MAJOR_GENRES
  /\ (forall g, gap_candidate genres g = true <->
                absent genres g = true
                \/ exists c, tally_count genres g = Some c
                             /\ (100 * c < 10 * sum_of_counts genres)%Z)
  /\ (forall g, In g (gaps genres) ->
                In g MAJOR_GENRES /\ gap_candidate genres g = true).
Proof.
  intros _ [Hsum _].
  assert (Ht : (0 < totalReleases genres)%Z) by now rewrite total_is_sum.
  assert (Heq : gaps genres = firstn 3 (filter (gap_candidate genres) MAJOR_GENRES)).
  { unfold gaps, Js.slice0. f_equal. apply filter_ext.
    intros g. now apply is_gap_candidate. }
  split; [apply total_is_sum |].
  split; [exact Heq |].
  split; [reflexivity |].
  split; [apply gaps_length |].
  split; [apply subsequence_firstn_filter |].
  split.
  - intros g. rewrite <- tally_count_absent. unfold gap_candidate.
    destruct (tally_count genres g) as [c |].
    + rewrite Z.ltb_lt. split.
      * intros H. right. now exists c.
      * intros [H | [c' [Hc H]]]; [discriminate | congruence].
    + split; [now left | reflexivity].
  - intros g Hg. rewrite Heq in Hg. apply JsFacts.firstn_subset in Hg.
    apply filter_In in Hg. exact Hg.
Qed.

Lemma gaps_first_three_candidates_witness :
  sum_of_counts Samples.jazz_and_rock = 100%Z
  /\ gap_candidate Samples.jazz_and_rock "Jazz" = true
  /\ gap_candidate Samples.jazz_and_rock "Rock" = false
  /\ gaps Samples.jazz_and_rock = ["Electronic"; "Jazz"; "Hip Hop"].
Proof.
  split; [reflexivity |]. split; [reflexivity |]. split; [reflexivity |].
  assert (Hpos : forall e, In e Samples.jazz_and_rock -> (0 <= count e)%Z)
    by (intros e [<- | [<- | []]]; simpl; lia).
  assert (Hsum : (0 < sum_of_counts Samples.jazz_and_rock <= 2 ^ 40)%Z)
    by (split; [reflexivity | discriminate]).
  destruct (gaps_first_three_candidates Samples.jazz_and_rock Hpos Hsum)
    as [_ [H _]].
  rewrite H. reflexivity.
Defined.

(** The claim of C2 fails on the empty tally: its total is 0 and the
    gaps are the first three major genres. *)
Lemma empty_tally_has_gaps :
  totalReleases [] = 0%Z /\ gaps [] = ["Electronic"; "Rock"; "Jazz"] /\ gaps [] <> [].
Proof. repeat split. discriminate. Qed.

(** C2, amended.  For a tally of counts that are not negative and sum
    to 0, the quotient by the total is computed all the same: every
    share is [NaN], which is not below 10, so the gaps are the first
    three, at most, of the major genres that are absent from the tally;
    for the empty tally these are Electronic, Rock and Jazz. *)
Theorem gaps_of_zero_total (genres : list GenreCount) :
  (forall e, In e genres -> (0 <= count e)%Z) ->
  totalReleases genres = 0%Z ->
  gaps genres = firstn 3 (filter (absent genres) MAJOR_GENRES)
  /\ (forall g, In g (genrePercentages genres) -> percentage g = Js.NaN)
  /\ (genres = [] -> gaps genres = ["Electronic"; "Rock"; "Jazz"]).
Proof.
  intros Hpos Ht.
  assert (Hnan : forall g, In g (genrePercentages genres) -> percentage g = Js.NaN).
  { intros g Hg. unfold genrePercentages in Hg. apply in_map_iff in Hg.
    destruct Hg as [e [<- He]]. simpl.
    rewrite Ht, (total_zero_counts genres Hpos Ht e He). reflexivity. }
  split; [| split; [exact Hnan | now intros ->]].
  unfold gaps, Js.slice0. f_equal. apply filter_ext. intros genre.
  unfold is_gap.
  destruct (find (fun g => g_name g =? genre) (genrePercentages genres))
    as [g |] eqn:E.
  - pose proof (find_some _ _ E) as [Hin Hname].
    rewrite (Hnan g Hin). simpl. symmetry.
    unfold absent. apply negb_false_iff. apply existsb_exists.
    unfold genrePercentages in Hin. apply in_map_iff in Hin.
    destruct Hin as [e [<- He]]. now exists e.
  - symmetry. apply tally_count_absent. unfold tally_count.
    unfold genrePercentages in E. rewrite find_percentage in E.
    destruct (find (fun e => name e =? genre) genres); [discriminate | reflexivity].
Qed.

Lemma gaps_of_zero_total_witness :
  (forall e, In e Samples.rock_none -> (0 <= count e)%Z)
  /\ totalReleases Samples.rock_none = 0%Z
  /\ gaps Samples.rock_none = ["Electronic"; "Jazz"; "Hip Hop"].
Proof.
  assert (H : forall e, In e Samples.rock_none -> (0 <= count e)%Z).
  { intros e [<- | []]. simpl. lia. }
  split; [exact H |]. split; [reflexivity |].
  destruct (gaps_of_zero_total Samples.rock_none H eq_refl) as [Hg _].
  rewrite Hg. reflexivity.
Defined.

(** The selection starts with the gaps. *)
Lemma genresToSearch_starts_with_gaps (genres : list GenreCount) :
  firstn (List.length (gaps genres)) (genresToSearch genres) = gaps genres.
Proof.
  unfold genresToSearch, Js.slice0.
  destruct (JsFacts.new_Set_app_prefix String.eqb String.eqb_eq
              (gaps genres) (topGenres genres) (gaps_NoDup genres))
    as [rest ->].
  pose proof (gaps_length genres) as Hl.
  rewrite firstn_firstn, Nat.min_l by lia.
  rewrite firstn_app, firstn_all, Nat.sub_diag. simpl. apply app_nil_r.
Qed.

(** C10.  Whenever the handler answers with recommendations, the gaps
    it returns are the first entries of the analyzed genres it returns;
    in particular every gap is one of the analyzed genres. *)
Theorem gaps_in_analyzedGenres (request : Request)
    (recs : list Bucket) (analyzed gap_list : list string) :
  POST request = Recommended recs analyzed gap_list ->
  firstn (List.length gap_list) analyzed = gap_list
  /\ (forall g, In g gap_list -> In g analyzed).
Proof.
  unfold POST. intros H.
  destruct (negb (Js.truthy_opt (consumerKey request))
            || negb (Js.truthy_opt (consumerSecret request))); [discriminate |].
  destruct (negb (Js.truthy_opt (accessToken request))
            || negb (Js.truthy_opt (accessTokenSecret request))); [discriminate |].
  destruct (body request) as [b |]; [| discriminate].
  injection H as _ <- <-.
  pose proof (genresToSearch_starts_with_gaps (genres b)) as Hp.
  split; [exact Hp |].
  intros g Hg. rewrite <- Hp in Hg. now apply JsFacts.firstn_subset in Hg.
Qed.

Lemma gaps_in_analyzedGenres_witness :
  exists recs,
    POST Samples.rock_request
    = Recommended recs ["Electronic"; "Jazz"; "Hip Hop"; "Rock"]
                       ["Electronic"; "Jazz"; "Hip Hop"]
    /\ (forall g, In g ["Electronic"; "Jazz"; "Hip Hop"] ->
                  In g ["Electronic"; "Jazz"; "Hip Hop"; "Rock"]).
Proof.
  eexists. split; [reflexivity |].
  exact (proj2 (gaps_in_analyzedGenres Samples.rock_request _ _ _ eq_refl)).
Defined.

End GenreFacts.


(** ** Artist and title of a search result *)

Module TitleFacts.

Import Recommendations SpecTerms.
Local Open Scope string_scope.

Lemma prefix_length (sep s : string) :
  prefix sep s = true -> (String.length sep <= String.length s)%nat.
Proof.
  revert s. induction sep as [| a sep IH]; intros s H; simpl; [lia |].
  destruct s as [| b s]; simpl in *; [discriminate |].
  destruct (ascii_dec a b); [| discriminate].
  specialize (IH s H). lia.
Qed.

(** A string that starts with [sep] is [sep] followed by the rest. *)
Lemma prefix_drop (sep s : string) :
  prefix sep s = true -> s = sep ++ Js.drop (String.length sep) s.
Proof.
  revert s. induction sep as [| a sep IH]; intros s H; simpl; [reflexivity |].
  destruct s as [| b s]; simpl in *; [discriminate |].
  destruct (ascii_dec a b) as [-> |]; [| discriminate].
  f_equal. now apply IH.
Qed.

Lemma split_from_not_nil (sep : string) (k : nat) (s : string) :
  Js.split_from sep k s <> [].
Proof.
  revert k. induction s as [| c s IH]; intros k; cbn [Js.split_from];
    [discriminate |].
  destruct k; [| apply IH].
  destruct (prefix sep (String c s)); [discriminate |].
  specialize (IH 0%nat). destruct (Js.split_from sep 0 s); simpl; congruence.
Qed.

(** Passing over [k] characters is splitting what comes after them. *)
Lemma split_from_skip (sep : string) (k : nat) (s : string) :
  (k <= String.length s)%nat ->
  Js.split_from sep k s = Js.split_from sep 0 (Js.drop k s).
Proof.
  revert k. induction s as [| c s IH]; intros k Hk; simpl in Hk.
  - replace k with 0%nat by lia. reflexivity.
  - destruct k; [reflexivity |]. cbn [Js.split_from Js.drop]. apply IH. lia.
Qed.

Lemma join_cons (sep x : string) (xs : list string) :
  xs <> [] -> Js.join sep (x :: xs) = x ++ sep ++ Js.join sep xs.
Proof. destruct xs; [congruence | reflexivity]. Qed.

Lemma join_push_char (sep : string) (c : ascii) (l : list string) :
  l <> [] -> Js.join sep (Js.push_char c l) = String c (Js.join sep l).
Proof.
  destruct l as [| x [| y l]]; intros H; [congruence | reflexivity | reflexivity].
Qed.

Lemma drop_pred (sep : string) (c : ascii) (s : string) :
  sep <> "" ->
  Js.drop (String.length sep) (String c s) = Js.drop (String.length sep - 1) s.
Proof.
  destruct sep; [congruence |]. intros _. simpl. now rewrite Nat.sub_0_r.
Qed.

(** Joining the segments with the separator gives the string back. *)
Lemma join_split_from (sep : string) (k : nat) (s : string) :
  sep <> "" ->
  (k <= String.length s)%nat ->
  Js.join sep (Js.split_from sep k s) = Js.drop k s.
Proof.
  intros Hsep. revert k. induction s as [| c s IH]; intros k Hk; simpl in Hk.
  - replace k with 0%nat by lia. reflexivity.
  - destruct k; cbn [Js.split_from Js.drop].
    + destruct (prefix sep (String c s)) eqn:E.
      * rewrite join_cons by apply split_from_not_nil.
        pose proof (prefix_length _ _ E) as Hl. simpl in Hl.
        assert (0 < String.length sep)%nat
          by (destruct sep; [congruence | simpl; lia]).
        rewrite IH by lia. rewrite <- (drop_pred sep c s Hsep).
        simpl. symmetry. now apply prefix_drop.
      * rewrite join_push_char by apply split_from_not_nil.
        f_equal. apply (IH 0%nat). lia.
    + apply IH. lia.
Qed.

Lemma join_split (sep s : string) :
  sep <> "" -> Js.join sep (Js.split sep s) = s.
Proof. intros H. unfold Js.split. rewrite join_split_from; simpl; [reflexivity | assumption | lia]. Qed.

(** [split] cuts at the first separator and goes on with the rest. *)
Lemma split_cut (sep s : string) :
  sep <> "" ->
  Js.split sep s =
  match cut sep s with
  | Some (a, b) => a :: Js.split sep b
  | None => [s]
  end.
Proof.
  intros Hsep. unfold Js.split.
  induction s as [| c s IH]; cbn [Js.split_from cut]; [reflexivity |].
  destruct (prefix sep (String c s)) eqn:E.
  - f_equal. rewrite (drop_pred sep c s Hsep). apply split_from_skip.
    pose proof (prefix_length _ _ E) as Hl. simpl in Hl. lia.
  - rewrite IH. destruct (cut sep s) as [[a b] |]; reflexivity.
Qed.

(** [cut] returns the two sides of an occurrence of the separator... *)
Lemma cut_app (sep s a b : string) :
  cut sep s = Some (a, b) -> s = a ++ sep ++ b.
Proof.
  revert a. induction s as [| c s IH]; intros a H; cbn [cut] in H; [discriminate |].
  destruct (prefix sep (String c s)) eqn:E.
  - injection H as <- <-. simpl. now apply prefix_drop.
  - destruct (cut sep s) as [[a' b'] |]; [| discriminate].
    injection H as <- <-. simpl. f_equal. now apply IH.
Qed.

(** ... and this occurrence is the first one. *)
Lemma cut_first (sep s a b : string) (k : nat) :
  cut sep s = Some (a, b) ->
  (k < String.length a)%nat ->
  prefix sep (Js.drop k s) = false.
Proof.
  revert a k. induction s as [| c s IH]; intros a k H Hk; cbn [cut] in H;
    [discriminate |].
  destruct (prefix sep (String c s)) eqn:E.
  - injection H as <- <-. simpl in Hk. lia.
  - destruct (cut sep s) as [[a' b'] |] eqn:Ec; [| discriminate].
    injection H as <- <-. destruct k; [exact E |].
    simpl. apply (IH a'); [reflexivity | simpl in Hk; lia].
Qed.

(** Without an occurrence there is nothing to cut. *)
Lemma cut_none (sep s : string) (k : nat) :
  cut sep s = None -> (k < String.length s)%nat ->
  prefix sep (Js.drop k s) = false.
Proof.
  revert k. induction s as [| c s IH]; intros k H Hk; cbn [cut] in H;
    simpl in Hk; [lia |].
  destruct (prefix sep (String c s)) eqn:E; [discriminate |].
  destruct (cut sep s) as [[a' b'] |]; [discriminate |].
  destruct k; [exact E |]. simpl. apply IH; [reflexivity | lia].
Qed.

Lemma or_str_empty (s : string) : Js.or_str s "" = s.
Proof. now destruct s. Qed.

(** The claim of C5 fails on a title without separator: the artist is
    the title itself, not "Unknown Artist". *)
Lemma plain_title_artist :
  cut " - " (r_title Samples.plain_title) = None
  /\ artist (format_result Samples.plain_title) = "Foo"
  /\ title (format_result Samples.plain_title) = "Foo"
  /\ artist (format_result Samples.plain_title) <> "Unknown Artist".
Proof. repeat split. discriminate. Qed.

(** C5, amended.  The combined string [raw] of a search result is
    split at its separators " - ".  When it has one, with [a] before
    the first occurrence and [b] after it, the artist is [a], or
    "Unknown Artist" when [a] is empty, and the title is [b], or [raw]
    when [b] is empty.  When it has none, artist and title are both
    [raw], or "Unknown Artist" and "Unknown" when [raw] is empty. *)
Theorem format_result_artist_title (r : SearchResult) :
  match cut " - " (r_title r) with
  | Some (a, b) =>
      r_title r = a ++ " - " ++ b
      /\ artist (format_result r) = Js.or_str a "Unknown Artist"
      /\ title (format_result r) = Js.or_str b (r_title r)
  | None =>
      artist (format_result r) = Js.or_str (r_title r) "Unknown Artist"
      /\ title (format_result r) = Js.or_str (r_title r) "Unknown"
  end.
Proof.
  assert (Hsep : " - " <> "") by discriminate.
  unfold format_result. rewrite or_str_empty, (split_cut " - " _ Hsep).
  destruct (cut " - " (r_title r)) as [[a b] |] eqn:E.
  - pose proof (cut_app _ _ _ _ E) as Hraw.
    split; [exact Hraw |]. split; [reflexivity |].
    cbn [title]. rewrite (join_split " - " b Hsep).
    destruct b as [| c b]; [| reflexivity].
    unfold Js.or_str at 1 3. cbn [Js.truthy_str].
    rewrite Hraw. destruct a; reflexivity.
  - split; reflexivity.
Qed.

End TitleFacts.

(** ** The paginated fetcher *)

Module CollectionFacts.

Import Discogs Collection.
Local Open Scope string_scope.

Lemma In_page_numbers (n : nat) (first p : Z) :
  In p (page_numbers n first) <-> (first <= p < first + Z.of_nat n)%Z.
Proof.
  revert first. induction n as [| n IH]; intros first.
  - simpl. lia.
  - cbn [page_numbers In]. rewrite IH. lia.
Qed.

Lemma page_numbers_length (n : nat) (first : Z) :
  List.length (page_numbers n first) = n.
Proof. revert first. induction n; intros; simpl; congruence. Qed.

Section Reader.
Variable client : Client.
Variable user : string.

Lemma get_page_run (page : Z) (log : list Event) :
  get_page client user page log
  = (read client user 0 page 100, (log ++ [event client page 100])%list).
Proof. reflexivity. Qed.

Lemma fetch_pages_step (n : nat) (page : Z)
    (acc : list DiscogsRelease) (log : list Event) :
  fetch_pages client user (S n) page acc log
  = match read client user 0 page 100 with
    | Some pageData =>
        fetch_pages client user n (page + 1) (acc ++ releases pageData)
          ((log ++ [event client page 100]) ++ [Sleep 100])%list
    | None => (None, (log ++ [event client page 100])%list)
    end.
Proof.
  cbn [fetch_pages]. unfold bind at 1. rewrite get_page_run.
  destruct (read client user 0 page 100); reflexivity.
Qed.

(** When a page of the loop fails after the pages before it answered,
    the loop throws there: the failing request is its last event. *)
Lemma fetch_pages_stops (pages : Z -> Page) (n : nat) (page p : Z)
    (acc : list DiscogsRelease) (log : list Event) :
  (page <= p < page + Z.of_nat n)%Z ->
  (forall q, (page <= q < p)%Z -> read client user 0 q 100 = Some (pages q)) ->
  read client user 0 p 100 = None ->
  fetch_pages client user n page acc log
  = (None,
     (log ++ page_events client (page_numbers (Z.to_nat (p - page)) page)
          ++ [event client p 100])%list).
Proof.
  revert page acc log. induction n as [| n IH]; intros page acc log Hp Hok Hr.
  - lia.
  - rewrite fetch_pages_step.
    destruct (Z.eq_dec p page) as [-> | Hne].
    + rewrite Hr, Z.sub_diag. reflexivity.
    + rewrite (Hok page) by lia.
      rewrite (IH (page + 1)%Z) by (try assumption; intros; try apply Hok; lia).
      replace (Z.to_nat (p - page)) with (S (Z.to_nat (p - (page + 1)))) by lia.
      cbn [page_numbers page_events flat_map]. unfold page_events.
      f_equal. rewrite <- !app_assoc. reflexivity.
Qed.

(** When all pages of the loop answer, their releases are appended in
    order, and each request is followed by the delay. *)
Lemma fetch_pages_ok (pages : Z -> Page) (n : nat) (page : Z)
    (acc : list DiscogsRelease) (log : list Event) :
  (forall p, (page <= p < page + Z.of_nat n)%Z ->
             read client user 0 p 100 = Some (pages p)) ->
  fetch_pages client user n page acc log
  = (Some (acc ++ flat_map (fun p => releases (pages p)) (page_numbers n page))%list,
     (log ++ page_events client (page_numbers n page))%list).
Proof.
  revert page acc log. induction n as [| n IH]; intros page acc log H.
  - simpl. unfold ret. now rewrite !app_nil_r.
  - rewrite fetch_pages_step, (H page) by lia.
    rewrite IH by (intros p Hp; apply H; lia).
    cbn [page_numbers flat_map page_events]. unfold page_events.
    now rewrite <- !app_assoc.
Qed.

End Reader.

Lemma flat_map_length_le {A B} (f : A -> list B) (l : list A) (k : nat) :
  (forall x, In x l -> List.length (f x) <= k)%nat ->
  (List.length (flat_map f l) <= k * List.length l)%nat.
Proof.
  induction l as [| x l IH]; intros H; simpl; [lia |].
  rewrite length_app.
  pose proof (H x (or_introl eq_refl)).
  assert (List.length (flat_map f l) <= k * List.length l)%nat
    by (apply IH; intros y Hy; apply H; now right).
  lia.
Qed.

(** The handler, once credentials and user name are there. *)
Lemma GET_fetches (request : Request) (user : string) :
  Js.truthy_opt (consumerKey request) = true ->
  Js.truthy_opt (consumerSecret request) = true ->
  username request = Some user ->
  Js.truthy_str user = true ->
  GET request =
  match fetch_collection (client_of request) user [] with
  | (Some (all, total), log) =>
      (Fetched all total (Z.of_nat (List.length all)), log)
  | (None, log) => (ErrorResponse "Failed to fetch collection" 500, log)
  end.
Proof.
  intros Hk Hs Hu Ht. unfold GET. rewrite Hk, Hs, Hu, Ht. reflexivity.
Qed.

(** The claim of C1 fails: when the first two pages of five answer and
    the third does not, the handler answers with an error and no
    release. *)
Lemma flaky_catalog_is_an_error :
  pagesToFetch 450 = 5%Z
  /\ CollectionSamples.flaky "crate_digger" 0 1 100
     = Some (CollectionSamples.page_of 450 1)
  /\ CollectionSamples.flaky "crate_digger" 0 3 100 = None
  /\ GET (CollectionSamples.public_request CollectionSamples.flaky)
     = (ErrorResponse "Failed to fetch collection" 500,
        [GetPublicCollection 1 100;
         GetPublicCollection 2 100; Sleep 100;
         GetPublicCollection 3 100]).
Proof. repeat split. Qed.

(** C1, amended.  When the first page answers and [p], from 2 to
    [pagesToFetch], is the first page whose request fails, the handler
    stops there, asking for no further page, and answers with the error
    "Failed to fetch collection" and status 500; the releases read so
    far are not returned. *)
Theorem later_page_failure_is_an_error
    (request : Request) (user : string) (pages : Z -> Page) (p : Z) :
  let client := client_of request in
  Js.truthy_opt (consumerKey request) = true ->
  Js.truthy_opt (consumerSecret request) = true ->
  username request = Some user ->
  Js.truthy_str user = true ->
  (forall q, (1 <= q < p)%Z -> read client user 0 q 100 = Some (pages q)) ->
  (2 <= p <= pagesToFetch (pagination_items (pages 1)))%Z ->
  read client user 0 p 100 = None ->
  GET request
  = (ErrorResponse "Failed to fetch collection" 500,
     (event client 1 100
        :: page_events client (page_numbers (Z.to_nat (p - 2)) 2)
        ++ [event client p 100])%list).
Proof.
  intros client Hk Hs Hu Ht Hok Hp Hfail.
  rewrite (GET_fetches request user Hk Hs Hu Ht).
  unfold fetch_collection. unfold bind at 1.
  fold client. rewrite get_page_run, Hok by lia.
  unfold bind.
  rewrite (fetch_pages_stops client user pages _ 2 p); try assumption.
  - reflexivity.
  - lia.
  - intros q Hq. apply Hok. lia.
Qed.

Lemma later_page_failure_is_an_error_witness :
  GET (CollectionSamples.public_request CollectionSamples.flaky)
  = (ErrorResponse "Failed to fetch collection" 500,
     [GetPublicCollection 1 100;
      GetPublicCollection 2 100; Sleep 100;
      GetPublicCollection 3 100]).
Proof.
  refine (later_page_failure_is_an_error
            (CollectionSamples.public_request CollectionSamples.flaky)
            "crate_digger" (CollectionSamples.page_of 450) 3
            eq_refl eq_refl eq_refl eq_refl _ _ eq_refl).
  - intros q Hq. simpl. unfold CollectionSamples.flaky.
    replace (q <=? 2)%Z with true by (symmetry; apply Z.leb_le; lia).
    reflexivity.
  - vm_compute. split; discriminate.
Defined.

(** C9.  The handler asks for page 1 and reads the total reported
    there; [pagesToFetch] is the least number of pages of 100 items
    that cover the total, capped at 5.  When every page up to
    [pagesToFetch] answers, the handler asks for the pages
    1, 2, ..., [pagesToFetch] in this order, each request from page 2
    on being followed by a delay of 100 ms, and returns the releases of
    these pages in order; when no page holds more than 100 releases it
    returns at most 500. *)
Theorem pages_fetched_in_sequence
    (request : Request) (user : string) (pages : Z -> Page) :
  let client := client_of request in
  let total := pagination_items (pages 1) in
  let later := page_numbers (Z.to_nat (pagesToFetch total - 1)) 2 in
  let all := (releases (pages 1)
              ++ flat_map (fun p => releases (pages p)) later)%list in
  Js.truthy_opt (consumerKey request) = true ->
  Js.truthy_opt (consumerSecret request) = true ->
  username request = Some user ->
  Js.truthy_str user = true ->
  (forall p, (1 <= p <= Z.max 1 (pagesToFetch total))%Z ->
             read client user 0 p 100 = Some (pages p)) ->
  (forall p, (1 <= p <= Z.max 1 (pagesToFetch total))%Z ->
             (List.length (releases (pages p)) <= 100)%nat) ->
  pagesToFetch total = Z.min (Js.ceil_div total 100) 5
  /\ (100 * (Js.ceil_div total 100 - 1) < total <= 100 * Js.ceil_div total 100)%Z
  /\ (forall p, In p later <-> (2 <= p <= pagesToFetch total)%Z)
  /\ GET request
     = (Fetched all total (Z.of_nat (List.length all)),
        event client 1 100
          :: flat_map (fun p => [event client p 100; Sleep 100]) later)
  /\ (List.length all <= 500)%nat.
Proof.
  intros client total later all Hk Hs Hu Ht Hread Hsize.
  assert (Hlater : forall p, In p later <-> (2 <= p <= pagesToFetch total)%Z).
  { intros p. unfold later. rewrite In_page_numbers. lia. }
  split; [reflexivity |].
  split; [apply NumberFacts.ceil_div_100 |].
  split; [exact Hlater |].
  split.
  - rewrite (GET_fetches request user Hk Hs Hu Ht).
    unfold fetch_collection. unfold bind at 1.
    rewrite get_page_run, Hread by lia. unfold bind.
    fold client total.
    rewrite (fetch_pages_ok client user pages).
    + reflexivity.
    + intros p Hp. apply Hread. lia.
  - unfold all. rewrite length_app.
    assert (H1 : (List.length (releases (pages 1%Z)) <= 100)%nat)
      by (apply Hsize; lia).
    assert (H2 : (List.length (flat_map (fun p => releases (pages p)) later)
                  <= 100 * List.length later)%nat).
    { apply flat_map_length_le. intros p Hp. apply Hsize.
      apply Hlater in Hp. lia. }
    unfold later in H2 at 2. rewrite page_numbers_length in H2.
    assert (Z.to_nat (pagesToFetch total - 1) <= 4)%nat
      by (unfold pagesToFetch; lia).
    lia.
Qed.

Lemma pages_fetched_in_sequence_witness :
  GET (CollectionSamples.public_request CollectionSamples.steady)
  = (Fetched [CollectionSamples.record 1 1; CollectionSamples.record 2 2] 150 2,
     [GetPublicCollection 1 100; GetPublicCollection 2 100; Sleep 100]).
Proof.
  refine (proj1 (proj2 (proj2 (proj2
    (pages_fetched_in_sequence
       (CollectionSamples.public_request CollectionSamples.steady)
       "crate_digger" (CollectionSamples.page_of 150)
       eq_refl eq_refl eq_refl eq_refl _ _))))).
  - intros p _. reflexivity.
  - intros p _. simpl. lia.
Defined.

End CollectionFacts.


(** ** The collection comparator *)

Module CompareFacts.

Import Discogs FriendCompare.
Local Open Scope string_scope.

Lemma has_Z (s : list Z) (x : Z) : Js.has Z.eqb s x = true <-> In x s.
Proof. apply JsFacts.has_In. intros a b. apply Z.eqb_eq. Qed.

Lemma In_masterIds (collection : list DiscogsRelease) (m : Z) :
  In m (masterIds collection) <-> exists r, In r collection /\ master r = m.
Proof.
  unfold masterIds. rewrite JsFacts.In_new_Set by (intros a b; apply Z.eqb_eq).
  rewrite in_map_iff. split; intros [r [H1 H2]]; exists r; tauto.
Qed.

(** The shared masters: truthy identifiers found on both sides. *)
Lemma In_overlapMasterIds (mine theirs : list DiscogsRelease) (m : Z) :
  In m (overlapMasterIds mine theirs) <->
  Js.truthy m = true /\ In m (masterIds mine) /\ In m (masterIds theirs).
Proof.
  unfold overlapMasterIds.
  rewrite JsFacts.In_new_Set by (intros a b; apply Z.eqb_eq).
  rewrite filter_In, andb_true_iff, has_Z. tauto.
Qed.

Lemma In_overlap (mine theirs : list DiscogsRelease) (x : DiscogsRelease) :
  In x (compute_overlap mine theirs) <->
  In x mine /\ In (master x) (overlapMasterIds mine theirs).
Proof. unfold compute_overlap. now rewrite filter_In, has_Z. Qed.

Lemma In_only_in (collection : list DiscogsRelease) (ids : list Z)
    (x : DiscogsRelease) :
  In x (only_in collection ids) <->
  In x collection /\ Js.truthy (master x) = true /\ ~ In (master x) ids.
Proof.
  unfold only_in. rewrite filter_In, andb_true_iff, negb_true_iff.
  rewrite <- has_Z. destruct (Js.has Z.eqb ids (master x)); intuition congruence.
Qed.




(** Adding elements that are already there changes nothing. *)
Lemma fold_add_known (l acc : list Z) :
  (forall x, In x l -> In x acc) -> fold_left (Js.add Z.eqb) l acc = acc.
Proof.
  induction l as [| x l IH]; intros H; simpl; [reflexivity |].
  assert (Hx : Js.has Z.eqb acc x = true) by (apply has_Z, H; now left).
  unfold Js.add at 2. rewrite Hx. apply IH. intros y Hy. apply H. now right.
Qed.

Lemma new_Set_twice (s : list Z) :
  NoDup s -> Js.new_Set Z.eqb (s ++ s) = s.
Proof.
  intros H. unfold Js.new_Set. rewrite fold_left_app.
  fold (Js.new_Set Z.eqb s).
  rewrite (JsFacts.new_Set_NoDup Z.eqb Z.eqb_eq s H).
  now apply fold_add_known.
Qed.

Lemma filter_all {A} (f : A -> bool) (l : list A) :
  (forall x, In x l -> f x = true) -> filter f l = l.
Proof.
  induction l as [| x l IH]; intros H; simpl; [reflexivity |].
  rewrite (H x (or_introl eq_refl)). f_equal. apply IH.
  intros y Hy. apply H. now right.
Qed.

(** A positive number divided by itself, times 100, rounds to 100. *)
Lemma round_whole (n : Z) :
  (0 < n)%Z ->
  Js.Math_round (Js.mul (Js.div (Js.of_int n) (Js.of_int n)) (Js.of_int 100))
  = Js.of_int 100.
Proof.
  intros Hn. destruct n as [| p | p]; try lia.
  unfold Js.of_int, Js.div, Js.mul, Js.Math_round.
  replace (Qeq_bool (inject_Z (Z.pos p)) 0) with false by reflexivity.
  f_equal. f_equal.
  assert (Hq : (inject_Z (Z.pos p) / inject_Z (Z.pos p) * inject_Z 100
                + (1 # 2) == 201 # 2)%Q).
  { assert (Hp : ~ (inject_Z (Z.pos p) == 0)%Q) by (unfold Qeq; simpl; lia).
    field. exact Hp. }
  rewrite Hq. reflexivity.
Qed.

(** Where every release has a master, a collection compared with
    itself scores 100. *)
Lemma score_with_itself (collection : list DiscogsRelease) :
  collection <> [] ->
  (forall r, In r collection -> Js.truthy (master r) = true) ->
  compute_score collection collection = Js.of_int 100.
Proof.
  intros Hne Hall.
  assert (Hnd : NoDup (masterIds collection))
    by apply JsFacts.NoDup_new_Set, Z.eqb_eq.
  assert (Hov : overlapMasterIds collection collection = masterIds collection).
  { unfold overlapMasterIds. rewrite filter_all.
    - apply JsFacts.new_Set_NoDup; [apply Z.eqb_eq | exact Hnd].
    - intros m Hm. rewrite (proj2 (has_Z _ _) Hm), andb_true_r.
      apply In_masterIds in Hm. destruct Hm as [r [Hr <-]]. now apply Hall. }
  assert (Htot : totalUnique collection collection
                 = Js.size (masterIds collection)).
  { unfold totalUnique. now rewrite new_Set_twice. }
  assert (Hpos : (0 < Js.size (masterIds collection))%Z).
  { destruct collection as [| r l]; [congruence |].
    assert (Hin : In (master r) (masterIds (r :: l)))
      by (apply In_masterIds; exists r; split; [now left | reflexivity]).
    unfold Js.size. destruct (masterIds (r :: l)); [destruct Hin | simpl; lia]. }
  unfold compute_score. rewrite Htot, Hov.
  rewrite (proj2 (Z.ltb_lt _ _) Hpos). now apply round_whole.
Qed.

(** C4.  On a collection that holds a release without master, the
    comparison with itself does not score 100: the identifier 0 counts
    as a work of its own in the union but not in the overlap. *)
Theorem score_with_itself_orphan :
  CompareSamples.with_orphan <> []
  /\ (exists r, In r CompareSamples.with_orphan /\ Js.truthy (master r) = true)
  /\ overlapMasterIds CompareSamples.with_orphan CompareSamples.with_orphan = [1%Z]
  /\ totalUnique CompareSamples.with_orphan CompareSamples.with_orphan = 2%Z
  /\ compute_score CompareSamples.with_orphan CompareSamples.with_orphan
     = Js.of_int 50.
Proof.
  split; [discriminate |].
  split; [exists (CompareSamples.record 1 1); split; [now left | reflexivity] |].
  repeat split.
Qed.

End CompareFacts.

(** ** The trade matcher *)

Module TradeFacts.

Import Discogs FriendCompare.
Local Open Scope string_scope.

Lemma find_first {A} (f : A -> bool) (l : list A) (w : A) :
  find f l = Some w ->
  exists before after,
    l = (before ++ w :: after)%list /\ f w = true
    /\ forall w', In w' before -> f w' = false.
Proof.
  induction l as [| x l IH]; simpl; [discriminate |].
  destruct (f x) eqn:E.
  - intros H. injection H as <-. exists [], l. repeat split; [assumption |].
    intros w' [].
  - intros H. destruct (IH H) as [before [after [-> [Hw Hb]]]].
    exists (x :: before), after. repeat split; [assumption |].
    intros w' [<- | Hw']; [assumption | now apply Hb].
Qed.

Lemma find_exists {A} (f : A -> bool) (l : list A) (x : A) :
  In x l -> f x = true -> exists w, find f l = Some w.
Proof.
  induction l as [| y l IH]; simpl; [intros [] |].
  intros Hx Hf. destruct (f y) eqn:E; [now exists y |].
  destruct Hx as [-> | Hx]; [congruence | now apply IH].
Qed.

(** The wanted masters: the truthy identifiers of the wantlist. *)
Lemma In_wanted (wants : list WantlistItem) (m : Z) :
  Js.has Z.eqb (Js.new_Set Z.eqb (filter Js.truthy (map w_master_id wants))) m
  = true
  <-> Js.truthy m = true /\ exists w, In w wants /\ w_master_id w = m.
Proof.
  rewrite CompareFacts.has_Z.
  rewrite JsFacts.In_new_Set by (intros a b; apply Z.eqb_eq).
  rewrite filter_In, in_map_iff. split.
  - intros [[w [Hw Hin]] Ht]. split; [assumption | now exists w].
  - intros [Ht [w [Hin Hw]]]. split; [now exists w | assumption].
Qed.

Lemma In_opportunities (mine : list DiscogsRelease)
    (wants : list WantlistItem) (o : TradeOpportunity) :
  In o (opportunities mine wants) <->
  In (release o) mine
  /\ Js.truthy (master (release o)) = true
  /\ (exists w, In w wants /\ w_master_id w = master (release o))
  /\ matchedWant o
     = find (fun w => (w_master_id w =? master (release o))%Z) wants.
Proof.
  unfold opportunities. rewrite in_map_iff. split.
  - intros [r [<- Hr]]. apply filter_In in Hr. destruct Hr as [Hr Hw].
    apply In_wanted in Hw. simpl. tauto.
  - intros [Hr [Ht [Hw Hm]]]. exists (release o). split.
    + destruct o as [r m]. simpl in *. now rewrite Hm.
    + apply filter_In. split; [assumption |]. apply In_wanted. tauto.
Qed.

(** The identifier 0 stands for no master and is no key: a release
    without master is not offered, even when the wantlist has an entry
    without master. *)
Lemma orphan_is_not_offered :
  let i := CompareSamples.record 1 0 in
  In i CompareSamples.orphan
  /\ (exists w, In w CompareSamples.orphan_wanted /\ w_master_id w = master i)
  /\ ~ In i (map release
               (opportunities CompareSamples.orphan CompareSamples.orphan_wanted)).
Proof.
  cbv zeta. split; [now left |]. split.
  - exists (CompareSamples.want 9 0). split; [now left | reflexivity].
  - vm_compute. tauto.
Qed.

(** C8.  An item is offered exactly when it is in my collection and
    its master (an identifier that is not 0, which stands for no
    master) is the master of some entry of the friend's wantlist; each
    opportunity pairs its release with the first entry of the wantlist,
    in wantlist order, that has this master. *)
Theorem offered_iff_wanted (mine : list DiscogsRelease)
    (wants : list WantlistItem) :
  (forall i, In i (map release (opportunities mine wants)) <->
             In i mine
             /\ Js.truthy (master i) = true
             /\ exists w, In w wants /\ w_master_id w = master i)
  /\ (forall o, In o (opportunities mine wants) ->
        exists before w after,
          wants = (before ++ w :: after)%list
          /\ matchedWant o = Some w
          /\ w_master_id w = master (release o)
          /\ forall w', In w' before -> w_master_id w' <> master (release o)).
Proof.
  split.
  - intros i. rewrite in_map_iff. split.
    + intros [o [<- Ho]]. apply In_opportunities in Ho. tauto.
    + intros [Hi [Ht Hw]].
      exists {| release := i;
                matchedWant :=
                  find (fun w => (w_master_id w =? master i)%Z) wants |}.
      split; [reflexivity |]. apply In_opportunities. simpl. tauto.
  - intros o Ho. apply In_opportunities in Ho.
    destruct Ho as [_ [_ [[w0 [Hin Hw0]] Hm]]].
    destruct (find_exists (fun w => (w_master_id w =? master (release o))%Z)
                wants w0 Hin (proj2 (Z.eqb_eq _ _) Hw0)) as [w Hf].
    destruct (find_first _ _ _ Hf) as [before [after [Heq [Hw Hb]]]].
    exists before, w, after. split; [exact Heq |].
    split; [congruence |]. split; [now apply Z.eqb_eq |].
    intros w' Hw'. apply Z.eqb_neq. now apply Hb.
Qed.

(** The claim of C6 fails when the request for the friend's wantlist
    rejects: my wantlist, which would have answered and matches a
    release of the friend, is not asked for, and [theyCanOffer] is
    empty. *)
Lemma friend_offline_hides_their_offers :
  let fetch := CompareSamples.friend_offline in
  let theirs := CompareSamples.their_pressing in
  fetch "friend" = NetworkError "Failed to fetch"
  /\ fetch "me" = Body (Some [CompareSamples.want 5 10])
  /\ opportunities theirs [CompareSamples.want 5 10] <> []
  /\ exists result,
       handleSearch ascii_methods "me" CompareSamples.my_pressing "friend"
                    CompareSamples.serve_collection fetch
       = (SetResult result, [FetchCollection "friend"; FetchWantlist "friend"])
       /\ theyCanOffer result = [].
Proof.
  cbv zeta. repeat split; try discriminate.
  eexists. split; reflexivity.
Qed.

(** C6, amended.  Once the friend's collection is there, no failure of
    a wantlist request aborts the comparison.  The friend's wantlist is
    asked for first, then mine.  A request that fails, in whatever way,
    leaves the list of its own direction empty, and a failure of the
    request for my wantlist leaves [youCanOffer] as it is.  When the
    request for the friend's wantlist is answered with an error status,
    mine is still asked for and [theyCanOffer] is what my wantlist
    gives.  When the request for the friend's wantlist rejects, or its
    body cannot be read, my wantlist is not asked for and
    [theyCanOffer] is empty as well. *)
Theorem wantlist_failures (methods : StringMethods)
    (myUsername friend : string) (mine theirs : list DiscogsRelease)
    (fetchCollection : string -> Reply (list DiscogsRelease))
    (fetchWantlist : string -> Reply (list WantlistItem)) :
  Js.truthy_str (trim methods friend) = true ->
  (toLowerCase methods friend =? toLowerCase methods myUsername) = false ->
  fetchCollection friend = Body (Some theirs) ->
  theirs <> [] ->
  let both_asked :=
    [FetchCollection friend; FetchWantlist friend; FetchWantlist myUsername] in
  let from_my_wantlist :=
    match fetchWantlist myUsername with
    | Body field => opportunities theirs (or_empty field)
    | NetworkError _ | NotOk | BadJson _ => []
    end in
  exists result requests,
    handleSearch methods myUsername mine friend fetchCollection fetchWantlist
    = (SetResult result, requests)
    /\ match fetchWantlist friend with
       | NetworkError _ | BadJson _ =>
           requests = [FetchCollection friend; FetchWantlist friend]
           /\ youCanOffer result = []
           /\ theyCanOffer result = []
       | NotOk =>
           requests = both_asked
           /\ youCanOffer result = []
           /\ theyCanOffer result = from_my_wantlist
       | Body field =>
           requests = both_asked
           /\ youCanOffer result = opportunities mine (or_empty field)
           /\ theyCanOffer result = from_my_wantlist
       end.
Proof.
  intros Hb Hself Hc Hne. cbv zeta. unfold handleSearch.
  rewrite Hb, Hself, Hc. cbn [negb or_empty].
  destruct theirs as [| r l]; [congruence |].
  cbn [List.length]. rewrite Nat2Z.inj_succ.
  replace (Z.succ (Z.of_nat (List.length l)) =? 0)%Z with false
    by (symmetry; apply Z.eqb_neq; lia).
  eexists. eexists. split; [reflexivity |].
  cbn [youCanOffer theyCanOffer]. unfold trade.
  destruct (fetchWantlist friend) as [m | | m | field];
    cbn [throws direction fst snd]; try (repeat split; fail);
    destruct (fetchWantlist myUsername) as [m' | | m' | field'];
    cbn [throws direction fst snd]; repeat split.
Qed.

Lemma wantlist_failures_witness :
  exists result,
    handleSearch ascii_methods "me" CompareSamples.my_pressing "friend"
                 CompareSamples.serve_collection CompareSamples.friend_offline
    = (SetResult result, [FetchCollection "friend"; FetchWantlist "friend"])
    /\ youCanOffer result = []
    /\ theyCanOffer result = [].
Proof.
  destruct (wantlist_failures ascii_methods "me" "friend"
              CompareSamples.my_pressing
              CompareSamples.their_pressing CompareSamples.serve_collection
              CompareSamples.friend_offline
              eq_refl eq_refl eq_refl ltac:(discriminate))
    as [result [requests [H [Hr [Hy Ht]]]]].
  exists result. rewrite <- Hr. split; [exact H |]. split; [exact Hy | exact Ht].
Defined.

End TradeFacts.



(** ** The collection route, whatever the catalog answers *)

Module FetcherFacts.

Import Discogs Collection CollectionLog.
Local Open Scope string_scope.

Lemma requested_pages_app (l1 l2 : list Event) :
  requested_pages (l1 ++ l2) = (requested_pages l1 ++ requested_pages l2)%list.
Proof.
  induction l1 as [| e l1 IH]; simpl; [reflexivity |].
  destruct (requested_page e); simpl; now rewrite IH.
Qed.

Lemma page_numbers_snoc (n : nat) (first : Z) :
  page_numbers (S n) first
  = (page_numbers n first ++ [first + Z.of_nat n])%list.
Proof.
  revert first. induction n as [| n IH]; intros first.
  - simpl. now rewrite Z.add_0_r.
  - change (page_numbers (S (S n)) first)
      with (first :: page_numbers (S n) (first + 1)).
    rewrite IH. cbn [page_numbers app]. do 2 f_equal. f_equal. lia.
Qed.

Section AnyReader.
Variable client : Client.
Variable user : string.
Hypothesis event_is_request :
  forall page, requested_page (event client page 100) = Some page.

(** The loop asks for consecutive pages, at most [n] of them. *)
Lemma fetch_pages_requests (n : nat) (page : Z)
    (acc : list DiscogsRelease) (log : list Event) :
  exists j, (j <= n)%nat
    /\ requested_pages (snd (fetch_pages client user n page acc log))
       = (requested_pages log ++ page_numbers j page)%list.
Proof.
  revert page acc log. induction n as [| n IH]; intros page acc log.
  - exists 0%nat. simpl. now rewrite app_nil_r.
  - rewrite CollectionFacts.fetch_pages_step.
    destruct (read client user 0 page 100) as [pd |].
    + destruct (IH (page + 1)%Z (acc ++ releases pd)%list
                  ((log ++ [event client page 100]) ++ [Sleep 100])%list)
        as [j [Hj Heq]].
      exists (S j). split; [lia |]. rewrite Heq.
      rewrite !requested_pages_app. cbn [requested_pages requested_page].
      rewrite event_is_request. cbn [page_numbers].
      now rewrite app_nil_r, <- app_assoc.
    + exists 1%nat. split; [lia |]. cbn [snd].
      rewrite requested_pages_app. cbn [requested_pages].
      now rewrite event_is_request.
Qed.

(** The loop throws exactly when one of its pages fails. *)
Lemma fetch_pages_throws (n : nat) (page : Z)
    (acc : list DiscogsRelease) (log : list Event) :
  fst (fetch_pages client user n page acc log) = None
  <-> exists p, (page <= p < page + Z.of_nat n)%Z
               /\ read client user 0 p 100 = None.
Proof.
  revert page acc log. induction n as [| n IH]; intros page acc log.
  - simpl. split; [discriminate | intros [p [Hp _]]; lia].
  - rewrite CollectionFacts.fetch_pages_step.
    destruct (read client user 0 page 100) as [pd |] eqn:E.
    + rewrite IH. split; intros [p [Hp Hr]]; exists p; split; try assumption.
      * lia.
      * assert (p <> page) by congruence. lia.
    + split; [| reflexivity]. intros _. exists page. split; [lia | exact E].
Qed.

(** What the loop returns starts with what it was given. *)
Lemma fetch_pages_extends (n : nat) (page : Z)
    (acc all : list DiscogsRelease) (log : list Event) :
  fst (fetch_pages client user n page acc log) = Some all ->
  exists more, all = (acc ++ more)%list.
Proof.
  revert page acc log. induction n as [| n IH]; intros page acc log.
  - simpl. intros H. injection H as <-. exists []. now rewrite app_nil_r.
  - rewrite CollectionFacts.fetch_pages_step.
    destruct (read client user 0 page 100) as [pd |]; [| discriminate].
    intros H. destruct (IH _ _ _ H) as [more ->].
    exists (releases pd ++ more)%list. now rewrite app_assoc.
Qed.

End AnyReader.

Lemma fetch_collection_run (client : Client) (user : string) :
  fetch_collection client user []
  = match read client user 0 1 100 with
    | Some firstPage =>
        match fetch_pages client user
                (Z.to_nat (pagesToFetch (pagination_items firstPage) - 1)) 2
                (releases firstPage) [event client 1 100] with
        | (Some all, log) => (Some (all, pagination_items firstPage), log)
        | (None, log) => (None, log)
        end
    | None => (None, [event client 1 100])
    end.
Proof.
  unfold fetch_collection. unfold bind at 1.
  rewrite CollectionFacts.get_page_run.
  destruct (read client user 0 1 100) as [firstPage |]; [| reflexivity].
  unfold bind. cbn [app].
  destruct (fetch_pages _ _ _ _ _ _) as [[all |] log]; reflexivity.
Qed.

Lemma fetch_collection_log (client : Client) (user : string) :
  snd (fetch_collection client user [])
  = match read client user 0 1 100 with
    | Some firstPage =>
        snd (fetch_pages client user
               (Z.to_nat (pagesToFetch (pagination_items firstPage) - 1)) 2
               (releases firstPage) [event client 1 100])
    | None => [event client 1 100]
    end.
Proof.
  rewrite fetch_collection_run.
  destruct (read client user 0 1 100) as [firstPage |]; [| reflexivity].
  destruct (fetch_pages _ _ _ _ _ _) as [[all |] log]; reflexivity.
Qed.

Lemma client_event_is_request (request : Request) (page : Z) :
  requested_page (event (client_of request) page 100) = Some page.
Proof.
  unfold client_of.
  destruct (Js.truthy_opt (accessToken request)
            && Js.truthy_opt (accessTokenSecret request)); reflexivity.
Qed.

(** X1.  Whatever the request and whatever the catalog answers, the
    handler asks for the pages 1, 2, ..., [k] in this order, without a
    gap or a repetition, for some [k] of at most 5.  With credentials
    and a user name it asks for page 1 at least; when one of them is
    missing it asks for nothing and causes no event at all. *)
Theorem at_most_five_consecutive_pages (request : Request) :
  exists k, (k <= 5)%nat
    /\ requested_pages (snd (GET request)) = page_numbers k 1
    /\ (ready request = true -> (1 <= k)%nat)
    /\ (ready request = false -> snd (GET request) = []).
Proof.
  assert (Hstop : forall (answer : Response) (b : bool),
            exists k, (k <= 5)%nat
              /\ requested_pages (snd (answer, @nil Event)) = page_numbers k 1
              /\ (false && b = true -> (1 <= k)%nat)
              /\ (false && b = false -> snd (answer, @nil Event) = [])).
  { intros answer b. exists 0%nat.
    split; [lia |]. split; [reflexivity |].
    split; [discriminate | reflexivity]. }
  unfold GET, ready.
  destruct (Js.truthy_opt (consumerKey request)); [| apply Hstop].
  destruct (Js.truthy_opt (consumerSecret request)); [| apply Hstop].
  cbn [negb orb andb]. clear Hstop.
  destruct (username request) as [user |];
    [| exists 0%nat; split; [lia |]; split; [reflexivity |];
       split; [discriminate | reflexivity]].
  cbn [Js.truthy_opt]. destruct (Js.truthy_str user);
    [| exists 0%nat; split; [lia |]; split; [reflexivity |];
       split; [discriminate | reflexivity]].
  cbn [negb].
  replace (snd (let (o, log) := fetch_collection (client_of request) user [] in
                match o with
                | Some (all, total) =>
                    (Fetched all total (Z.of_nat (List.length all)), log)
                | None => (ErrorResponse "Failed to fetch collection" 500, log)
                end))
    with (snd (fetch_collection (client_of request) user []))
    by (destruct (fetch_collection (client_of request) user [])
          as [[[all total] |] log]; reflexivity).
  rewrite fetch_collection_log.
  destruct (read (client_of request) user 0 1 100) as [firstPage |].
  - destruct (fetch_pages_requests (client_of request) user
                (client_event_is_request request)
                (Z.to_nat (pagesToFetch (pagination_items firstPage) - 1)) 2
                (releases firstPage)
                [event (client_of request) 1 100])
      as [j [Hj Heq]].
    exists (S j). split; [unfold pagesToFetch in Hj; lia |].
    split; [| split; [lia | discriminate]].
    rewrite Heq. cbn [app requested_pages page_numbers].
    now rewrite client_event_is_request.
  - exists 1%nat. split; [lia |].
    split; [| split; [lia | discriminate]].
    cbn [requested_pages]. now rewrite client_event_is_request.
Qed.

(** X2.  The handler never uses the read operation it does not select:
    with both tokens its answer and its requests do not depend on the
    public operation, without them they do not depend on the
    authenticated one. *)
Theorem unused_reader_is_not_called (request : Request) (reader : PageReader) :
  GET (replace_unused_reader request reader) = GET request.
Proof.
  unfold replace_unused_reader, GET, client_of.
  destruct (Js.truthy_opt (accessToken request)
            && Js.truthy_opt (accessTokenSecret request)) eqn:E;
    cbn [consumerKey consumerSecret username accessToken accessTokenSecret
         getCollection getPublicCollection];
    rewrite E; reflexivity.
Qed.

(** X3.  A collection whose reported total is at most 100 (zero and
    negative totals included) takes one request: the handler returns
    the releases of page 1 and causes neither a second request nor a
    delay. *)
Theorem one_page_is_enough
    (request : Request) (user : string) (firstPage : Page) :
  Js.truthy_opt (consumerKey request) = true ->
  Js.truthy_opt (consumerSecret request) = true ->
  username request = Some user ->
  Js.truthy_str user = true ->
  read (client_of request) user 0 1 100 = Some firstPage ->
  (pagination_items firstPage <= 100)%Z ->
  GET request
  = (Fetched (releases firstPage) (pagination_items firstPage)
             (Z.of_nat (List.length (releases firstPage))),
     [event (client_of request) 1 100]).
Proof.
  intros Hk Hs Hu Ht H1 Hsmall.
  rewrite (CollectionFacts.GET_fetches request user Hk Hs Hu Ht).
  unfold fetch_collection. unfold bind at 1.
  rewrite CollectionFacts.get_page_run, H1. unfold bind.
  replace (Z.to_nat (pagesToFetch (pagination_items firstPage) - 1))
    with 0%nat; [reflexivity |].
  pose proof (NumberFacts.ceil_div_100 (pagination_items firstPage)).
  unfold pagesToFetch. lia.
Qed.

Lemma one_page_is_enough_witness :
  GET (CollectionSamples.public_request small)
  = (Fetched [CollectionSamples.record 1 1] 50 1, [GetPublicCollection 1 100]).
Proof.
  refine (one_page_is_enough (CollectionSamples.public_request small)
            "crate_digger" (CollectionSamples.page_of 50 1)
            eq_refl eq_refl eq_refl eq_refl eq_refl _).
  simpl. lia.
Defined.

(** What the loop returns, when it returns: what it was given, then
    the releases of its pages in order. *)
Lemma fetch_pages_value (client : Client) (user : string) (n : nat) (page : Z)
    (acc all : list DiscogsRelease) (log : list Event) :
  fst (fetch_pages client user n page acc log) = Some all ->
  all = (acc ++ flat_map (page_releases client user) (page_numbers n page))%list.
Proof.
  revert page acc log. induction n as [| n IH]; intros page acc log.
  - simpl. intros H. injection H as <-. now rewrite app_nil_r.
  - rewrite CollectionFacts.fetch_pages_step.
    cbn [page_numbers flat_map]. unfold page_releases at 1.
    destruct (read client user 0 page 100) as [pd |]; [| discriminate].
    intros H. rewrite (IH _ _ _ H). now rewrite <- app_assoc.
Qed.

(** X4.  There is no partial answer.  With credentials and a user name,
    the handler answers "Failed to fetch collection" (500) exactly when
    page 1 or one of the pages 2 to [pagesToFetch] fails; when page 1
    fails it is the only request.  Otherwise the answer carries the
    total of page 1, the releases of page 1 followed by those the
    catalog shows on the pages 2, ..., [pagesToFetch], in this order,
    and their number as [fetched]. *)
Theorem error_iff_a_page_fails (request : Request) (user : string) :
  Js.truthy_opt (consumerKey request) = true ->
  Js.truthy_opt (consumerSecret request) = true ->
  username request = Some user ->
  Js.truthy_str user = true ->
  match read (client_of request) user 0 1 100 with
  | None =>
      GET request
      = (ErrorResponse "Failed to fetch collection" 500,
         [event (client_of request) 1 100])
  | Some firstPage =>
      let later :=
        page_numbers
          (Z.to_nat (pagesToFetch (pagination_items firstPage) - 1)) 2 in
      let all :=
        (releases firstPage
         ++ flat_map (page_releases (client_of request) user) later)%list in
      (fst (GET request) = ErrorResponse "Failed to fetch collection" 500
       <-> exists p,
            (2 <= p <= pagesToFetch (pagination_items firstPage))%Z
            /\ read (client_of request) user 0 p 100 = None)
      /\ (forall p, In p later
                    <-> (2 <= p <= pagesToFetch (pagination_items firstPage))%Z)
      /\ (fst (GET request) <> ErrorResponse "Failed to fetch collection" 500 ->
          fst (GET request)
          = Fetched all (pagination_items firstPage)
                    (Z.of_nat (List.length all)))
  end.
Proof.
  intros Hk Hs Hu Ht.
  rewrite (CollectionFacts.GET_fetches request user Hk Hs Hu Ht).
  rewrite fetch_collection_run.
  destruct (read (client_of request) user 0 1 100) as [firstPage |];
    [| reflexivity].
  cbv zeta.
  set (n := Z.to_nat (pagesToFetch (pagination_items firstPage) - 1)).
  set (log := [event (client_of request) 1 100]).
  pose proof (fetch_pages_throws (client_of request) user n 2
                (releases firstPage) log) as Hthrow.
  pose proof (fetch_pages_value (client_of request) user n 2
                (releases firstPage)) as Hval.
  assert (Hlater : forall p, In p (page_numbers n 2)
            <-> (2 <= p <= pagesToFetch (pagination_items firstPage))%Z).
  { intros p. rewrite CollectionFacts.In_page_numbers. unfold n. lia. }
  destruct (fetch_pages (client_of request) user n 2 (releases firstPage) log)
    as [[all |] log'] eqn:E; cbn [fst snd] in *.
  - split; [| split; [exact Hlater |]].
    + split; [discriminate |]. intros [p [Hp Hr]].
      assert (Hnone : @None (list DiscogsRelease) = Some all); [| discriminate].
      symmetry. apply Hthrow. exists p. split; [unfold n; lia | exact Hr].
    + intros _. rewrite <- (Hval all log); [reflexivity | now rewrite E].
  - split; [| split; [exact Hlater | congruence]].
    split; [| reflexivity]. intros _.
    destruct (proj1 Hthrow eq_refl) as [p [Hp Hr]].
    exists p. split; [unfold n in Hp; lia | exact Hr].
Qed.

Lemma error_iff_a_page_fails_witness :
  fst (GET (CollectionSamples.public_request CollectionSamples.steady))
  = Fetched [CollectionSamples.record 1 1; CollectionSamples.record 2 2] 150 2.
Proof.
  refine (proj2 (proj2
    (error_iff_a_page_fails
       (CollectionSamples.public_request CollectionSamples.steady)
       "crate_digger" eq_refl eq_refl eq_refl eq_refl)) _).
  vm_compute. discriminate.
Defined.

End FetcherFacts.

(** ** The recommendation engine *)

Module EngineFacts.

Import Recommendations SpecTerms EngineTerms.
Local Open Scope string_scope.

Lemma In_non_null {A} (l : list (option A)) (x : A) :
  In x (non_null l) <-> In (Some x) l.
Proof.
  induction l as [| [y |] l IH]; simpl.
  - tauto.
  - rewrite IH. split; intros [H | H]; auto; left; congruence.
  - rewrite IH. split; [auto | intros [H | H]; [discriminate | assumption]].
Qed.

Lemma subsequence_In {A} (l1 l2 : list A) (x : A) :
  subsequence l1 l2 -> In x l1 -> In x l2.
Proof.
  induction 1 as [| y l1 l2 _ IH | y l1 l2 _ IH]; simpl; intuition.
Qed.

Lemma subsequence_NoDup {A} (l1 l2 : list A) :
  subsequence l1 l2 -> NoDup l2 -> NoDup l1.
Proof.
  induction 1 as [| y l1 l2 Hs IH | y l1 l2 Hs IH]; intros Hn.
  - constructor.
  - apply IH. now inversion Hn.
  - inversion Hn as [| ? ? Hy Hl]; subst. constructor; [| now apply IH].
    intros Hin. apply Hy. now apply (subsequence_In l1 l2).
Qed.

Section Buckets.
Variable f : string -> option Bucket.
Hypothesis f_genre : forall g b, f g = Some b -> genre b = g.

(** The buckets come in the order of the genres asked for. *)
Lemma bucket_genres_subsequence (l : list string) :
  subsequence (map genre (non_null (map f l))) l.
Proof.
  induction l as [| g l IH]; simpl; [constructor |].
  destruct (f g) as [b |] eqn:E; simpl.
  - rewrite (f_genre g b E). now constructor.
  - now constructor.
Qed.

(** The bucket of a genre is what its own search gave. *)
Lemma bucket_of_non_null (l : list string) (g : string) :
  bucket_of g (non_null (map f l))
  = if existsb (String.eqb g) l then f g else None.
Proof.
  unfold bucket_of. induction l as [| g' l IH]; simpl; [reflexivity |].
  destruct (f g') as [b |] eqn:E; simpl.
  - rewrite (f_genre g' b E), (String.eqb_sym g g').
    destruct (String.eqb_spec g' g) as [-> | Hne]; simpl; [now rewrite E | exact IH].
  - rewrite IH. destruct (String.eqb_spec g g') as [-> | Hne]; simpl;
      [| reflexivity].
    rewrite E. now destruct (existsb (String.eqb g') l).
Qed.

End Buckets.

(** What a bucket is made of. *)
Lemma searchPromise_Some (search : string -> SearchOutcome)
    (gap_list : list string) (ownedSet : list Z) (g : string) (b : Bucket) :
  searchPromise search gap_list ownedSet g = Some b ->
  genre b = g
  /\ reason b = reason_for gap_list g
  /\ releases b <> []
  /\ exists results,
       search g = SearchAnswers results
       /\ releases b
          = map format_result
              (Js.slice0 8
                 (filter (fun r =>
                            Js.truthy (resolved_master_id r)
                            && negb (Js.has Z.eqb ownedSet (resolved_master_id r)))
                         (match results with Some l => l | None => [] end))).
Proof.
  unfold searchPromise, reason_for.
  destruct (search g) as [| results]; [discriminate |].
  cbv zeta. set (filtered := map format_result _).
  destruct (0 <? Z.of_nat (List.length filtered))%Z eqn:E; [| discriminate].
  intros H. injection H as <-. cbn [genre reason releases].
  split; [reflexivity |]. split; [reflexivity |]. split.
  - intros Hnil. rewrite Hnil in E. discriminate.
  - exists results. split; reflexivity.
Qed.

Lemma searchPromise_genre (search : string -> SearchOutcome)
    (gap_list : list string) (ownedSet : list Z) (g : string) (b : Bucket) :
  searchPromise search gap_list ownedSet g = Some b -> genre b = g.
Proof. intros H. now apply searchPromise_Some in H. Qed.

(** A bucket depends on the search for its own genre only. *)
Lemma searchPromise_local (search search' : string -> SearchOutcome)
    (gap_list : list string) (ownedSet : list Z) (g : string) :
  search' g = search g ->
  searchPromise search' gap_list ownedSet g
  = searchPromise search gap_list ownedSet g.
Proof. intros H. unfold searchPromise. now rewrite H. Qed.

Lemma masterId_format_result (r : SearchResult) :
  masterId (format_result r) = resolved_master_id r.
Proof. unfold format_result. now destruct (Js.split _ _). Qed.

Lemma or_str_not_empty (a b : string) : b <> "" -> Js.or_str a b <> "".
Proof. destruct a; simpl; [auto | discriminate]. Qed.

Lemma format_result_not_empty (r : SearchResult) :
  artist (format_result r) <> "" /\ title (format_result r) <> "".
Proof.
  unfold format_result. destruct (Js.split _ _); cbn [artist title]; split;
    repeat apply or_str_not_empty; discriminate.
Qed.

(** What an answer with recommendations is made of. *)
Lemma POST_Recommended (request : Request)
    (recs : list Bucket) (analyzed gap_list : list string) :
  POST request = Recommended recs analyzed gap_list ->
  exists b,
    body request = Some b
    /\ gap_list = gaps (genres b)
    /\ analyzed = genresToSearch (genres b)
    /\ recs = non_null
                (map (searchPromise (search request) gap_list
                        (Js.new_Set Z.eqb (ownedMasterIds b)))
                     analyzed).
Proof.
  unfold POST. intros H.
  destruct (negb (Js.truthy_opt (consumerKey request))
            || negb (Js.truthy_opt (consumerSecret request))); [discriminate |].
  destruct (negb (Js.truthy_opt (accessToken request))
            || negb (Js.truthy_opt (accessTokenSecret request))); [discriminate |].
  destruct (body request) as [b |]; [| discriminate].
  injection H as <- <- <-. now exists b.
Qed.

Lemma topGenres_length (genres : list GenreCount) :
  (List.length (topGenres genres) <= 2)%nat.
Proof. unfold topGenres. rewrite length_map. apply firstn_le_length. Qed.

Lemma In_topGenres (genres : list GenreCount) (g : string) :
  In g (topGenres genres) ->
  In g MAJOR_GENRES /\ exists e, In e genres /\ name e = g.
Proof.
  unfold topGenres. rewrite in_map_iff. intros [gp [<- Hin]].
  apply JsFacts.firstn_subset in Hin. apply filter_In in Hin.
  destruct Hin as [Hin Hmajor]. split.
  - now apply (JsFacts.includes_In String.eqb String.eqb_eq) in Hmajor.
  - unfold genrePercentages in Hin. apply in_map_iff in Hin.
    destruct Hin as [e [<- He]]. now exists e.
Qed.

Lemma In_gaps_major (genres : list GenreCount) (g : string) :
  In g (gaps genres) -> In g MAJOR_GENRES.
Proof.
  intros H. apply JsFacts.firstn_subset in H. now apply filter_In in H.
Qed.

(** X5.  The genres the handler searches, returned as [analyzedGenres],
    are at most 4 major genres, none twice; each is a gap or a genre of
    the tally, and at most 2 of them are not gaps. *)
Theorem analyzed_genres_are_bounded (request : Request)
    (recs : list Bucket) (analyzed gap_list : list string) :
  POST request = Recommended recs analyzed gap_list ->
  (List.length analyzed <= 4)%nat
  /\ (List.length analyzed <= List.length gap_list + 2)%nat
  /\ NoDup analyzed
  /\ (forall g, In g analyzed -> In g MAJOR_GENRES)
  /\ (forall g, In g analyzed ->
        In g gap_list
        \/ exists b e, body request = Some b /\ In e (genres b) /\ name e = g).
Proof.
  intros H. destruct (POST_Recommended _ _ _ _ H) as [b [Hb [-> [-> _]]]].
  unfold genresToSearch, Js.slice0.
  set (all := Js.new_Set String.eqb (gaps (genres b) ++ topGenres (genres b))).
  assert (Hnd : NoDup all) by apply JsFacts.NoDup_new_Set, String.eqb_eq.
  assert (Hin : forall g, In g all ->
            In g (gaps (genres b)) \/ In g (topGenres (genres b))).
  { intros g Hg. unfold all in Hg.
    rewrite (JsFacts.In_new_Set String.eqb String.eqb_eq) in Hg.
    now apply in_app_or in Hg. }
  split; [apply firstn_le_length |].
  split.
  - rewrite length_firstn. etransitivity; [apply Nat.le_min_r |].
    assert (Hle : (List.length all
                   <= List.length (gaps (genres b) ++ topGenres (genres b)))%nat).
    { apply (NoDup_incl_length Hnd). intros g Hg. apply in_or_app.
      now apply Hin. }
    rewrite length_app in Hle. pose proof (topGenres_length (genres b)). lia.
  - split; [now apply JsFacts.firstn_NoDup |]. split.
    + intros g Hg. apply JsFacts.firstn_subset in Hg.
      destruct (Hin g Hg) as [Hgap | Htop];
        [now apply (In_gaps_major (genres b)) | now apply In_topGenres in Htop].
    + intros g Hg. apply JsFacts.firstn_subset in Hg.
      destruct (Hin g Hg) as [Hgap | Htop]; [now left | right].
      apply In_topGenres in Htop. destruct Htop as [_ [e [He Hn]]].
      now exists b, e.
Qed.

Lemma analyzed_genres_are_bounded_witness :
  exists recs analyzed gap_list,
    POST Samples.rock_request = Recommended recs analyzed gap_list
    /\ (List.length analyzed <= 4)%nat /\ NoDup analyzed.
Proof.
  eexists _, _, _. split; [reflexivity |].
  destruct (analyzed_genres_are_bounded Samples.rock_request _ _ _ eq_refl)
    as [H4 [_ [Hnd _]]].
  split; [exact H4 | exact Hnd].
Defined.

(** X6.  Every bucket of recommendations is for an analyzed genre, with
    the reason of its kind (gap or reinforcement); it holds between 1
    and 8 releases; each release has a master identifier that is not
    zero and is not among the owned ones, and neither its artist nor
    its title is empty. *)
Theorem buckets_are_sound (request : Request)
    (recs : list Bucket) (analyzed gap_list : list string) (b : Bucket) :
  POST request = Recommended recs analyzed gap_list ->
  In b recs ->
  In (genre b) analyzed
  /\ reason b = reason_for gap_list (genre b)
  /\ (1 <= List.length (releases b) <= 8)%nat
  /\ forall r, In r (releases b) ->
       Js.truthy (masterId r) = true
       /\ (forall rb, body request = Some rb ->
                      ~ In (masterId r) (ownedMasterIds rb))
       /\ artist r <> "" /\ title r <> "".
Proof.
  intros H Hb. destruct (POST_Recommended _ _ _ _ H) as [rb [Hrb [_ [_ Hrecs]]]].
  rewrite Hrecs in Hb. apply In_non_null in Hb. apply in_map_iff in Hb.
  destruct Hb as [g [Hg Hin]].
  destruct (searchPromise_Some _ _ _ _ _ Hg) as [<- [Hreason [Hne [res [_ Hrel]]]]].
  split; [exact Hin |]. split; [exact Hreason |]. split.
  - split.
    + destruct (releases b); [congruence | simpl; lia].
    + rewrite Hrel, length_map. apply firstn_le_length.
  - intros r Hr. rewrite Hrel in Hr. apply in_map_iff in Hr.
    destruct Hr as [sr [<- Hsr]]. apply JsFacts.firstn_subset in Hsr.
    apply filter_In in Hsr. destruct Hsr as [_ Hkeep].
    apply andb_true_iff in Hkeep. destruct Hkeep as [Ht Hown].
    rewrite masterId_format_result.
    split; [exact Ht |]. split; [| apply format_result_not_empty].
    intros rb' Hrb'. assert (rb' = rb) by congruence. subst rb'.
    apply negb_true_iff in Hown.
    apply (JsFacts.has_false Z.eqb Z.eqb_eq) in Hown.
    intros Hin'. apply Hown.
    now apply (JsFacts.In_new_Set Z.eqb Z.eqb_eq).
Qed.

Lemma buckets_are_sound_witness :
  exists recs analyzed gap_list b,
    POST Samples.rock_request = Recommended recs analyzed gap_list
    /\ In b recs
    /\ (1 <= List.length (releases b) <= 8)%nat.
Proof.
  eexists _, _, _, _. split; [reflexivity |]. split; [now left |].
  exact (proj1 (proj2 (proj2
    (buckets_are_sound Samples.rock_request _ _ _ _ eq_refl
       (or_introl eq_refl))))).
Defined.

(** X7.  The buckets come in the order of the analyzed genres, at most
    one for each.  A genre whose search throws has no bucket, and the
    outcome of a search changes nothing but the bucket of its own
    genre: with another catalog the analyzed genres and the gaps are
    the same, and so is the bucket of every genre for which both
    catalogs give the same outcome. *)
Theorem bucket_order_and_isolation (request : Request)
    (recs : list Bucket) (analyzed gap_list : list string) :
  POST request = Recommended recs analyzed gap_list ->
  subsequence (map genre recs) analyzed
  /\ NoDup (map genre recs)
  /\ (forall g, search request g = SearchThrows -> bucket_of g recs = None)
  /\ forall search', exists recs',
       POST (with_search request search')
       = Recommended recs' analyzed gap_list
       /\ forall g, search' g = search request g ->
                    bucket_of g recs' = bucket_of g recs.
Proof.
  intros H.
  destruct (POST_Recommended _ _ _ _ H) as [rb [Hrb [Hgaps [Han Hrecs]]]].
  assert (Hsub : subsequence (map genre recs) analyzed).
  { rewrite Hrecs. apply bucket_genres_subsequence.
    intros g b. apply searchPromise_genre. }
  assert (Hnd : NoDup analyzed).
  { rewrite Han. apply JsFacts.firstn_NoDup, JsFacts.NoDup_new_Set, String.eqb_eq. }
  split; [exact Hsub |].
  split; [exact (subsequence_NoDup _ _ Hsub Hnd) |].
  split.
  - intros g Hg. rewrite Hrecs.
    rewrite bucket_of_non_null by (intros g' b; apply searchPromise_genre).
    unfold searchPromise. rewrite Hg. now destruct (existsb _ _).
  - intros search'.
    exists (non_null
              (map (searchPromise search' gap_list
                      (Js.new_Set Z.eqb (ownedMasterIds rb)))
                   analyzed)).
    split.
    + unfold POST in *. cbn [with_search consumerKey consumerSecret accessToken
                               accessTokenSecret body search].
      destruct (negb (Js.truthy_opt (consumerKey request))
                || negb (Js.truthy_opt (consumerSecret request)));
        [discriminate |].
      destruct (negb (Js.truthy_opt (accessToken request))
                || negb (Js.truthy_opt (accessTokenSecret request)));
        [discriminate |].
      rewrite Hrb. cbv zeta. now rewrite <- Hgaps, <- Han.
    + intros g Hg. rewrite Hrecs.
      rewrite !bucket_of_non_null by (intros g' b; apply searchPromise_genre).
      now rewrite (searchPromise_local _ _ _ _ _ Hg).
Qed.

Lemma bucket_order_and_isolation_witness :
  exists recs analyzed gap_list recs',
    POST Samples.rock_request = Recommended recs analyzed gap_list
    /\ POST (with_search Samples.rock_request only_rock)
       = Recommended recs' analyzed gap_list
    /\ bucket_of "Jazz" recs' = None
    /\ map genre recs' = ["Rock"].
Proof.
  eexists _, _, _, _. split; [reflexivity |].
  destruct (bucket_order_and_isolation Samples.rock_request _ _ _ eq_refl)
    as [_ [_ [_ Hiso]]].
  destruct (Hiso only_rock) as [recs' [Hpost _]].
  split; [reflexivity |]. split; reflexivity.
Defined.

(** X8.  When the title of a search result has a separator with text on
    both sides of its first occurrence, artist and title put together
    again with the separator give the title of the search result. *)
Theorem artist_title_round_trip (r : SearchResult) (a b : string) :
  cut " - " (r_title r) = Some (a, b) ->
  a <> "" ->
  b <> "" ->
  artist (format_result r) = a
  /\ title (format_result r) = b
  /\ artist (format_result r) ++ " - " ++ title (format_result r) = r_title r.
Proof.
  intros Hcut Ha Hb.
  assert (Hsep : " - " <> "") by discriminate.
  pose proof (TitleFacts.cut_app _ _ _ _ Hcut) as Hraw.
  unfold format_result.
  rewrite TitleFacts.or_str_empty, (TitleFacts.split_cut " - " _ Hsep), Hcut.
  cbn [artist title]. rewrite (TitleFacts.join_split " - " b Hsep).
  destruct a as [| ca a]; [congruence |].
  destruct b as [| cb b]; [congruence |].
  cbn [Js.or_str Js.truthy_str]. repeat split. now rewrite Hraw.
Qed.

Lemma artist_title_round_trip_witness :
  artist (format_result kind_of_blue) = "Miles Davis"
  /\ title (format_result kind_of_blue) = "Kind Of Blue".
Proof.
  destruct (artist_title_round_trip kind_of_blue "Miles Davis" "Kind Of Blue"
              eq_refl ltac:(discriminate) ltac:(discriminate))
    as [Ha [Hb _]].
  split; [exact Ha | exact Hb].
Defined.

Lemma prefix_app (sep x y : string) :
  prefix sep x = true -> prefix sep (x ++ y) = true.
Proof.
  revert x. induction sep as [| c sep IH]; intros x H;
    [now destruct (x ++ y) |].
  destruct x as [| d x]; simpl in *; [discriminate |].
  destruct (ascii_dec c d); [now apply IH | discriminate].
Qed.

(** What comes before the first separator holds no separator. *)
Lemma cut_left_has_none (sep s a b : string) :
  cut sep s = Some (a, b) -> cut sep a = None.
Proof.
  revert a. induction s as [| c s IH]; intros a H; cbn [cut] in H;
    [discriminate |].
  destruct (prefix sep (String c s)) eqn:E.
  - injection H as <- <-. reflexivity.
  - destruct (cut sep s) as [[a' b'] |] eqn:Ec; [| discriminate].
    injection H as <- <-. cbn [cut].
    destruct (prefix sep (String c a')) eqn:Ea.
    + pose proof (TitleFacts.cut_app _ _ _ _ Ec) as Hs.
      apply (prefix_app _ _ (sep ++ b')) in Ea. cbn [append] in Ea.
      rewrite <- Hs in Ea. congruence.
    + now rewrite (IH a' eq_refl).
Qed.

(** X17.  The artist of a recommended release never holds the separator
    " - ": the title of a search result is cut at its first separator,
    and further separators stay in the title. *)
Theorem artist_has_no_separator (r : SearchResult) :
  cut " - " (artist (format_result r)) = None.
Proof.
  assert (Hsep : " - " <> "") by discriminate.
  unfold format_result.
  rewrite TitleFacts.or_str_empty, (TitleFacts.split_cut " - " _ Hsep).
  destruct (cut " - " (r_title r)) as [[a b] |] eqn:E; cbn [artist].
  - destruct a as [| c a]; [reflexivity |].
    cbn [Js.or_str Js.truthy_str]. exact (cut_left_has_none _ _ _ _ E).
  - destruct (r_title r) as [| c t]; [reflexivity |].
    cbn [Js.or_str Js.truthy_str]. exact E.
Qed.

End EngineFacts.



(** ** The compatibility score and the two sides of a comparison *)

Module ScoreFacts.

Import Discogs FriendCompare.
Local Open Scope string_scope.

(** Two sets with the same elements have the same size. *)
Lemma same_size (s1 s2 : list Z) :
  NoDup s1 -> NoDup s2 -> (forall x, In x s1 <-> In x s2) ->
  Js.size s1 = Js.size s2.
Proof.
  intros H1 H2 H. unfold Js.size. f_equal. apply Nat.le_antisymm.
  - apply (NoDup_incl_length H1). intros x Hx. now apply H.
  - apply (NoDup_incl_length H2). intros x Hx. now apply H.
Qed.

Lemma NoDup_Z_set (l : list Z) : NoDup (Js.new_Set Z.eqb l).
Proof. apply JsFacts.NoDup_new_Set, Z.eqb_eq. Qed.

Lemma In_Z_set (l : list Z) (x : Z) : In x (Js.new_Set Z.eqb l) <-> In x l.
Proof. apply JsFacts.In_new_Set, Z.eqb_eq. Qed.

Lemma overlap_size_symmetric (mine theirs : list DiscogsRelease) :
  Js.size (overlapMasterIds mine theirs) = Js.size (overlapMasterIds theirs mine).
Proof.
  apply same_size; try apply NoDup_Z_set.
  intros m. rewrite !CompareFacts.In_overlapMasterIds. tauto.
Qed.

Lemma totalUnique_symmetric (mine theirs : list DiscogsRelease) :
  totalUnique mine theirs = totalUnique theirs mine.
Proof.
  unfold totalUnique. apply same_size; try apply NoDup_Z_set.
  intros m. rewrite !In_Z_set, !in_app_iff. tauto.
Qed.

Lemma overlap_size_le_total (mine theirs : list DiscogsRelease) :
  (0 <= Js.size (overlapMasterIds mine theirs) <= totalUnique mine theirs)%Z.
Proof.
  unfold totalUnique, Js.size. split; [lia |]. apply inj_le.
  apply NoDup_incl_length; [apply NoDup_Z_set |].
  intros m Hm. apply CompareFacts.In_overlapMasterIds in Hm.
  rewrite In_Z_set, in_app_iff. tauto.
Qed.

(** Rounding a share: a whole number of percent between 0 and 100. *)
Lemma round_share (o t : Z) :
  (0 <= o <= t)%Z -> (0 < t)%Z ->
  exists k,
    Js.Math_round (Js.mul (Js.div (Js.of_int o) (Js.of_int t)) (Js.of_int 100))
    = Js.of_int k
    /\ (0 <= k <= 100)%Z
    /\ (o = 0%Z -> k = 0%Z).
Proof.
  intros Ho Ht. destruct t as [| p | p]; try lia.
  unfold Js.of_int, Js.div, Js.mul, Js.Math_round.
  replace (Qeq_bool (inject_Z (Z.pos p)) 0) with false by reflexivity.
  set (q := (inject_Z o / inject_Z (Z.pos p) * inject_Z 100)%Q).
  assert (Hq0 : (0 <= q)%Q).
  { unfold q, Qle, Qdiv, Qmult, Qinv, inject_Z. cbn [Qnum Qden]. lia. }
  assert (Hq100 : (q <= 100)%Q).
  { unfold q, Qle, Qdiv, Qmult, Qinv, inject_Z. cbn [Qnum Qden].
    rewrite Pos.mul_1_l, Pos.mul_1_r. lia. }
  exists (Qfloor (q + (1 # 2))). split; [reflexivity |]. split; [split |].
  - change 0%Z with (Qfloor (1 # 2)). apply Qfloor_resp_le.
    rewrite <- (Qplus_0_l (1 # 2)) at 1. apply Qplus_le_compat; [exact Hq0 |].
    apply Qle_refl.
  - change 100%Z with (Qfloor (201 # 2)). apply Qfloor_resp_le.
    setoid_replace (201 # 2)%Q with (100 + (1 # 2))%Q by reflexivity.
    apply Qplus_le_compat; [exact Hq100 | apply Qle_refl].
  - intros ->. assert (Hz : (q + (1 # 2) == 1 # 2)%Q).
    { unfold q, Qeq, Qplus, Qdiv, Qmult, Qinv, inject_Z. cbn [Qnum Qden]. lia. }
    rewrite Hz. reflexivity.
Qed.

(** X9.  The compatibility score does not depend on who compares with
    whom. *)
Theorem score_symmetric (mine theirs : list DiscogsRelease) :
  compute_score mine theirs = compute_score theirs mine.
Proof.
  unfold compute_score.
  now rewrite overlap_size_symmetric, (totalUnique_symmetric mine theirs).
Qed.

(** X10.  The compatibility score is a whole number between 0 and 100,
    and it is 0 when the two collections share no master. *)
Theorem score_range (mine theirs : list DiscogsRelease) :
  exists k,
    compute_score mine theirs = Js.of_int k
    /\ (0 <= k <= 100)%Z
    /\ (overlapMasterIds mine theirs = [] -> k = 0%Z).
Proof.
  unfold compute_score.
  destruct (Z.ltb_spec 0 (totalUnique mine theirs)) as [Hpos | Hzero].
  - destruct (round_share _ _ (overlap_size_le_total mine theirs) Hpos)
      as [k [Hk [Hr H0]]].
    exists k. split; [exact Hk |]. split; [exact Hr |].
    intros Hnil. apply H0. now rewrite Hnil.
  - exists 0%Z. split; [reflexivity |]. split; [lia | reflexivity].
Qed.

(** X11.  The comparison seen from the friend's side: what is only the
    friend's is what would be only mine with the roles exchanged; the
    overlap computed from either side carries the same masters; and
    every item of the friend with a master is either only the friend's
    or in the overlap computed from the friend's side, never both. *)
Theorem friend_side_mirror (mine theirs : list DiscogsRelease) :
  compute_onlyFriend mine theirs = compute_onlyMe theirs mine
  /\ (forall m, In m (map master (compute_overlap mine theirs))
               <-> In m (map master (compute_overlap theirs mine)))
  /\ (forall x, In x theirs -> Js.truthy (master x) = true ->
        (In x (compute_onlyFriend mine theirs)
         /\ ~ In x (compute_overlap theirs mine))
        \/ (~ In x (compute_onlyFriend mine theirs)
            /\ In x (compute_overlap theirs mine))).
Proof.
  assert (Hsym : forall m, In m (overlapMasterIds mine theirs)
                           <-> In m (overlapMasterIds theirs mine)).
  { intros m. rewrite !CompareFacts.In_overlapMasterIds. tauto. }
  assert (Hmasters : forall a b m,
            In m (map master (compute_overlap a b))
            <-> In m (overlapMasterIds a b)).
  { intros a b m. rewrite in_map_iff. split.
    - intros [x [<- Hx]]. now apply CompareFacts.In_overlap in Hx.
    - intros Hm. pose proof (proj1 (CompareFacts.In_overlapMasterIds _ _ _) Hm)
        as [_ [Ha _]].
      apply CompareFacts.In_masterIds in Ha. destruct Ha as [x [Hx Hmx]].
      exists x. split; [exact Hmx |]. apply CompareFacts.In_overlap.
      now rewrite Hmx. }
  split; [| split].
  - unfold compute_onlyFriend, compute_onlyMe, only_in. apply filter_ext.
    intros r. f_equal. f_equal.
    destruct (Js.has Z.eqb (overlapMasterIds mine theirs) (master r)) eqn:E.
    + symmetry. apply CompareFacts.has_Z, Hsym. now apply CompareFacts.has_Z.
    + symmetry. apply (JsFacts.has_false Z.eqb Z.eqb_eq).
      apply (JsFacts.has_false Z.eqb Z.eqb_eq) in E. now rewrite <- Hsym.
  - intros m. now rewrite !Hmasters.
  - intros x Hx Ht. unfold compute_onlyFriend.
    rewrite CompareFacts.In_only_in, CompareFacts.In_overlap, <- Hsym.
    destruct (in_dec Z.eq_dec (master x) (overlapMasterIds mine theirs));
      [right | left]; tauto.
Qed.

Lemma In_masterIds_map (collection : list DiscogsRelease) (m : Z) :
  In m (masterIds collection) <-> In m (map master collection).
Proof. unfold masterIds. apply In_Z_set. Qed.

(** X16.  The score counts works, not copies: it only depends on which
    masters each collection holds, so further pressings or copies of a
    master already held, and the order of the releases, do not change
    it. *)
Theorem score_counts_masters_once
    (mine mine' theirs theirs' : list DiscogsRelease) :
  (forall m, In m (map master mine) <-> In m (map master mine')) ->
  (forall m, In m (map master theirs) <-> In m (map master theirs')) ->
  compute_score mine theirs = compute_score mine' theirs'.
Proof.
  intros Hm Ht.
  assert (Hov : Js.size (overlapMasterIds mine theirs)
                = Js.size (overlapMasterIds mine' theirs')).
  { apply same_size; try apply NoDup_Z_set.
    intros m. rewrite !CompareFacts.In_overlapMasterIds, !In_masterIds_map.
    now rewrite Hm, Ht. }
  assert (Htot : totalUnique mine theirs = totalUnique mine' theirs').
  { unfold totalUnique. apply same_size; try apply NoDup_Z_set.
    intros m. rewrite !In_Z_set, !in_app_iff, !In_masterIds_map.
    now rewrite Hm, Ht. }
  unfold compute_score. now rewrite Hov, Htot.
Qed.

Lemma score_counts_masters_once_witness :
  compute_score ScoreSamples.two_pressings CompareSamples.my_pressing
  = compute_score ScoreSamples.one_pressing CompareSamples.their_pressing.
Proof.
  apply score_counts_masters_once; intros m; simpl; intuition.
Defined.

End ScoreFacts.



(** ** The genre chart *)

Module GenreChartFacts.

Import GenreComparison.
Local Open Scope string_scope.

Lemma get_or_0_get (counts : Counts) (g : string) :
  get_or_0 counts g = match get counts g with Some v => v | None => 0%Z end.
Proof.
  unfold get_or_0. destruct (get counts g) as [v |]; [| reflexivity].
  unfold Js.truthy. destruct (Z.eqb_spec v 0); simpl; congruence.
Qed.

(** Reading a key after an assignment. *)
Lemma get_set (counts : Counts) (g g' : string) (v : Z) :
  get (set counts g v) g' = if g =? g' then Some v else get counts g'.
Proof.
  induction counts as [| [k w] rest IH]; simpl.
  - reflexivity.
  - destruct (String.eqb_spec k g) as [-> | Hne]; simpl.
    + now destruct (g =? g').
    + rewrite IH. destruct (String.eqb_spec k g') as [-> | Hne'];
        [| reflexivity].
      destruct (String.eqb_spec g g'); congruence.
Qed.

(** An assignment adds its key to the keys as to a set. *)
Lemma keys_set (counts : Counts) (g : string) (v : Z) :
  keys (set counts g v) = Js.add String.eqb (keys counts) g.
Proof.
  unfold Js.add, Js.has, keys.
  induction counts as [| [k w] rest IH]; cbn [set map fst existsb].
  - reflexivity.
  - rewrite (String.eqb_sym g k).
    destruct (k =? g); cbn [map fst orb]; [reflexivity |].
    rewrite IH.
    now destruct (existsb (String.eqb g) (map fst rest)).
Qed.

Lemma count_collection_flat (collection : list GenresField) (counts : Counts) :
  fold_left count_release collection counts
  = fold_left count_genre (genres_listed collection) counts.
Proof.
  revert counts. induction collection as [| [gs |] rest IH]; intros counts.
  - reflexivity.
  - cbn [fold_left count_release]. rewrite IH.
    unfold genres_listed. cbn [flat_map]. now rewrite fold_left_app.
  - cbn [fold_left count_release]. now rewrite IH.
Qed.

Lemma keys_fold (l : list string) (counts : Counts) :
  keys (fold_left count_genre l counts)
  = fold_left (Js.add String.eqb) l (keys counts).
Proof.
  revert counts. induction l as [| g l IH]; intros counts; simpl;
    [reflexivity |].
  rewrite IH. unfold count_genre. now rewrite keys_set.
Qed.

(** The keys of the counts are the genres listed, each once, in the
    order they first appear. *)
Lemma keys_count_collection (collection : list GenresField) :
  keys (count_collection collection)
  = Js.new_Set String.eqb (genres_listed collection).
Proof.
  unfold count_collection. now rewrite count_collection_flat, keys_fold.
Qed.

Lemma get_or_0_fold (l : list string) (counts : Counts) (g : string) :
  get_or_0 (fold_left count_genre l counts) g
  = (get_or_0 counts g + Z.of_nat (count_occ string_dec l g))%Z.
Proof.
  revert counts. induction l as [| x l IH]; intros counts.
  - simpl. lia.
  - cbn [fold_left count_occ]. rewrite IH.
    rewrite !get_or_0_get. unfold count_genre. rewrite get_set, get_or_0_get.
    destruct (string_dec x g) as [-> | Hne].
    + rewrite String.eqb_refl. destruct (get counts g); lia.
    + rewrite (proj2 (String.eqb_neq x g) Hne). destruct (get counts g); lia.
Qed.

(** The count of a genre is the number of times it is listed. *)
Lemma get_or_0_count_collection (collection : list GenresField) (g : string) :
  get_or_0 (count_collection collection) g = occurrences g collection.
Proof.
  unfold count_collection, occurrences.
  now rewrite count_collection_flat, get_or_0_fold.
Qed.

Lemma insert_row_perm (x : GenreRow) (l : list GenreRow) :
  Permutation (insert_row x l) (x :: l).
Proof.
  induction l as [| y l IH]; simpl; [reflexivity |].
  destruct (combined x <? combined y)%Z; [| reflexivity].
  rewrite IH. apply perm_swap.
Qed.

Lemma sort_rows_perm (l : list GenreRow) : Permutation (sort_rows l) l.
Proof.
  induction l as [| x l IH]; simpl; [reflexivity |].
  rewrite insert_row_perm. now constructor.
Qed.

Lemma insert_row_sorted (x : GenreRow) (l : list GenreRow) :
  StronglySorted before l -> StronglySorted before (insert_row x l).
Proof.
  induction 1 as [| y l Hl IH Hy]; simpl.
  - repeat constructor.
  - destruct (Z.ltb_spec (combined x) (combined y)) as [Hlt | Hge].
    + constructor; [exact IH |].
      rewrite Forall_forall in *. intros z Hz.
      apply (Permutation_in _ (insert_row_perm x l)) in Hz.
      destruct Hz as [<- | Hz]; [unfold before; lia | now apply Hy].
    + constructor; [now constructor |].
      constructor; [exact Hge |].
      rewrite Forall_forall in *. intros z Hz. specialize (Hy z Hz).
      unfold before in *. lia.
Qed.

Lemma sort_rows_sorted (l : list GenreRow) : StronglySorted before (sort_rows l).
Proof.
  induction l as [| x l IH]; simpl; [constructor | now apply insert_row_sorted].
Qed.

Lemma firstn_sorted (n : nat) (l : list GenreRow) :
  StronglySorted before l -> StronglySorted before (firstn n l).
Proof.
  intros H. revert n. induction H as [| y l Hl IH Hy]; intros n.
  - rewrite firstn_nil. constructor.
  - destruct n; simpl; constructor; [apply IH |].
    rewrite Forall_forall in *. intros z Hz.
    apply Hy. now apply JsFacts.firstn_subset in Hz.
Qed.

(** In a sorted list, what [firstn] keeps goes before what it drops. *)
Lemma firstn_before_skipn (n : nat) (l : list GenreRow) (a b : GenreRow) :
  StronglySorted before l ->
  In a (firstn n l) -> In b (skipn n l) -> before a b.
Proof.
  intros H. revert n. induction H as [| y l Hl IH Hy]; intros n Ha Hb.
  - rewrite firstn_nil in Ha. destruct Ha.
  - destruct n; simpl in *; [destruct Ha |].
    destruct Ha as [<- | Ha]; [| now apply (IH n)].
    rewrite Forall_forall in Hy. apply Hy.
    rewrite <- (firstn_skipn n l). apply in_or_app. now right.
Qed.

Section Chart.
Variables mine theirs : list GenresField.

Lemma chart_unfold :
  calculateGenreComparison mine theirs
  = firstn 8 (sort_rows (map (row_of mine theirs) (allGenres mine theirs))).
Proof. reflexivity. Qed.

Lemma In_allGenres (g : string) :
  In g (allGenres mine theirs) <-> In g (genres_listed mine) \/ In g (genres_listed theirs).
Proof.
  unfold allGenres.
  rewrite (JsFacts.In_new_Set String.eqb String.eqb_eq), in_app_iff.
  rewrite !keys_count_collection.
  now rewrite !(JsFacts.In_new_Set String.eqb String.eqb_eq).
Qed.

Lemma In_sorted_rows (row : GenreRow) :
  In row (sort_rows (map (row_of mine theirs) (allGenres mine theirs)))
  <-> exists g, In g (allGenres mine theirs) /\ row = row_of mine theirs g.
Proof.
  split.
  - intros H. apply (Permutation_in _ (sort_rows_perm _)) in H.
    apply in_map_iff in H. destruct H as [g [<- Hg]]. now exists g.
  - intros [g [Hg ->]].
    apply (Permutation_in _ (Permutation_sym (sort_rows_perm _))).
    now apply in_map.
Qed.

Lemma occurrences_pos (g : string) (collection : list GenresField) :
  In g (genres_listed collection) -> (1 <= occurrences g collection)%Z.
Proof.
  intros H. unfold occurrences.
  apply (count_occ_In string_dec) in H. lia.
Qed.

Lemma occurrences_nonneg (g : string) (collection : list GenresField) :
  (0 <= occurrences g collection)%Z.
Proof. unfold occurrences. lia. Qed.

End Chart.

(** X12.  For collections whose genre names are plain keys, every row
    of the chart gives, for its genre, the number of times the genre is
    listed on my releases and on the friend's; no row is for a genre
    that is listed nowhere. *)
Theorem chart_counts (mine theirs : list GenresField) (row : GenreRow) :
  plain_genres mine ->
  plain_genres theirs ->
  In row (calculateGenreComparison mine theirs) ->
  myCount row = occurrences (row_genre row) mine
  /\ friendCount row = occurrences (row_genre row) theirs
  /\ (1 <= combined row)%Z.
Proof.
  intros _ _ H. rewrite chart_unfold in H.
  apply JsFacts.firstn_subset in H. apply In_sorted_rows in H.
  destruct H as [g [Hg ->]]. unfold combined, row_of. cbn [row_genre myCount friendCount].
  rewrite !get_or_0_count_collection. repeat split.
  apply In_allGenres in Hg.
  pose proof (occurrences_nonneg g mine). pose proof (occurrences_nonneg g theirs).
  destruct Hg as [Hg | Hg]; apply occurrences_pos in Hg; lia.
Qed.

Lemma chart_counts_witness :
  let row := {| row_genre := "Jazz"; myCount := 2; friendCount := 1 |} in
  In row (calculateGenreComparison my_shelf their_shelf)
  /\ myCount row = occurrences "Jazz" my_shelf
  /\ friendCount row = occurrences "Jazz" their_shelf.
Proof.
  cbv zeta. split; [now left |].
  assert (Hm : plain_genres my_shelf)
    by (intros g Hg; simpl in Hg; intuition (subst; reflexivity)).
  assert (Ht : plain_genres their_shelf)
    by (intros g Hg; simpl in Hg; intuition (subst; reflexivity)).
  destruct (chart_counts my_shelf their_shelf
              {| row_genre := "Jazz"; myCount := 2; friendCount := 1 |}
              Hm Ht (or_introl eq_refl)) as [H1 [H2 _]].
  split; [exact H1 | exact H2].
Defined.

(** X13.  For collections whose genre names are plain keys, the chart
    has at most 8 rows, no genre twice, in the order of decreasing
    combined count; and it leaves out a genre that is listed only when
    it is full, with rows that all count at least as much. *)
Theorem chart_ranking (mine theirs : list GenresField) :
  plain_genres mine ->
  plain_genres theirs ->
  let rows := calculateGenreComparison mine theirs in
  (List.length rows <= 8)%nat
  /\ NoDup (map row_genre rows)
  /\ StronglySorted (fun a b => (combined b <= combined a)%Z) rows
  /\ forall g,
       In g (genres_listed mine) \/ In g (genres_listed theirs) ->
       In g (map row_genre rows)
       \/ (List.length rows = 8%nat
           /\ forall row, In row rows ->
                (occurrences g mine + occurrences g theirs <= combined row)%Z).
Proof.
  intros _ _ rows. unfold rows. rewrite chart_unfold.
  set (sorted := sort_rows (map (row_of mine theirs) (allGenres mine theirs))).
  assert (Hs : StronglySorted before sorted) by apply sort_rows_sorted.
  split; [apply firstn_le_length |]. split; [| split].
  - rewrite <- firstn_map. apply JsFacts.firstn_NoDup.
    apply (Permutation_NoDup
             (Permutation_sym (Permutation_map row_genre (sort_rows_perm _)))).
    rewrite map_map. cbn [row_of row_genre]. rewrite map_id.
    apply JsFacts.NoDup_new_Set, String.eqb_eq.
  - now apply firstn_sorted.
  - intros g Hg. apply In_allGenres in Hg.
    assert (Hrow : In (row_of mine theirs g) sorted)
      by (apply In_sorted_rows; now exists g).
    rewrite <- (firstn_skipn 8 sorted) in Hrow. apply in_app_or in Hrow.
    destruct Hrow as [Hkept | Hdropped].
    + left. apply in_map_iff. now exists (row_of mine theirs g).
    + right. split.
      * rewrite length_firstn. apply Nat.min_l.
        destruct (Nat.le_gt_cases 8 (List.length sorted)) as [Hle | Hlt];
          [exact Hle |].
        rewrite skipn_all2 in Hdropped by lia. destruct Hdropped.
      * intros row Hrow.
        pose proof (firstn_before_skipn 8 sorted _ _ Hs Hrow Hdropped) as Hb.
        unfold before, combined in *. cbn [row_of myCount friendCount] in Hb.
        now rewrite !get_or_0_count_collection in Hb.
Qed.

Lemma chart_ranking_witness :
  map row_genre (calculateGenreComparison my_shelf their_shelf)
  = ["Jazz"; "Rock"; "Funk / Soul"]
  /\ NoDup (map row_genre (calculateGenreComparison my_shelf their_shelf)).
Proof.
  split; [reflexivity |].
  assert (Hm : plain_genres my_shelf)
    by (intros g Hg; simpl in Hg; intuition (subst; reflexivity)).
  assert (Ht : plain_genres their_shelf)
    by (intros g Hg; simpl in Hg; intuition (subst; reflexivity)).
  exact (proj1 (proj2 (chart_ranking my_shelf their_shelf Hm Ht))).
Defined.

End GenreChartFacts.

(** ** When a comparison is made *)

Module SearchFacts.

Import Discogs FriendCompare.
Local Open Scope string_scope.

(** X14.  The handler produces a comparison exactly when the friend's
    name, trimmed, is not empty, its lower-case form is not that of my
    user name, and the friend's collection was fetched with at least
    one release.  The comparison then holds that collection with its
    overlap, [onlyMe] and [onlyFriend] against my collection.  In every
    other case no wantlist is asked for and the outcome does not depend
    on the wantlists; for a blank name or my own name, nothing at all
    is asked for. *)
Theorem comparison_needs_a_collection (methods : StringMethods)
    (myUsername friend : string) (mine : list DiscogsRelease)
    (fetchCollection : string -> Reply (list DiscogsRelease))
    (fetchWantlist : string -> Reply (list WantlistItem)) :
  let run :=
    handleSearch methods myUsername mine friend fetchCollection
                 fetchWantlist in
  ((exists result, fst run = SetResult result)
   <-> Js.truthy_str (trim methods friend) = true
       /\ (toLowerCase methods friend =? toLowerCase methods myUsername)
          = false
       /\ exists theirs,
            fetchCollection friend = Body (Some theirs) /\ theirs <> [])
  /\ (forall result, fst run = SetResult result ->
        friendUsername result = friend
        /\ fetchCollection friend = Body (Some (friendCollection result))
        /\ overlap result = compute_overlap mine (friendCollection result)
        /\ onlyMe result = compute_onlyMe mine (friendCollection result)
        /\ onlyFriend result
           = compute_onlyFriend mine (friendCollection result))
  /\ ((forall result, fst run <> SetResult result) ->
      (forall user, ~ In (FetchWantlist user) (snd run))
      /\ forall fetchWantlist',
          handleSearch methods myUsername mine friend fetchCollection
                       fetchWantlist'
          = run)
  /\ (Js.truthy_str (trim methods friend) = false
      \/ (toLowerCase methods friend =? toLowerCase methods myUsername) = true ->
      snd run = []).
Proof.
  cbv zeta. unfold handleSearch.
  destruct (Js.truthy_str (trim methods friend)); cbn [negb fst snd].
  2:{ split; [split; [intros [r Hr]; discriminate
                     | intros [Hb _]; discriminate] |].
      split; [intros r Hr; discriminate |].
      split; [intros _; split; [intros user [] | reflexivity] | reflexivity]. }
  destruct (toLowerCase methods friend =? toLowerCase methods myUsername);
    cbn [fst snd].
  { split; [split; [intros [r Hr]; discriminate
                   | intros [_ [Hs _]]; discriminate] |].
    split; [intros r Hr; discriminate |].
    split; [intros _; split; [intros user [] | reflexivity] | reflexivity]. }
  assert (Hno : forall user : string,
            ~ In (FetchWantlist user) [FetchCollection friend])
    by (intros user [Hu | []]; discriminate).
  destruct (fetchCollection friend) as [msg | | msg | [theirs |]];
    cbn [fst snd or_empty List.length Z.of_nat Z.eqb].
  - split; [split; [intros [r Hr]; discriminate
                   | intros [_ [_ [t [Ht _]]]]; discriminate] |].
    split; [intros r Hr; discriminate |].
    split; [intros _; split; [exact Hno | reflexivity] |].
    intros [Hf | Hf]; discriminate.
  - split; [split; [intros [r Hr]; discriminate
                   | intros [_ [_ [t [Ht _]]]]; discriminate] |].
    split; [intros r Hr; discriminate |].
    split; [intros _; split; [exact Hno | reflexivity] |].
    intros [Hf | Hf]; discriminate.
  - split; [split; [intros [r Hr]; discriminate
                   | intros [_ [_ [t [Ht _]]]]; discriminate] |].
    split; [intros r Hr; discriminate |].
    split; [intros _; split; [exact Hno | reflexivity] |].
    intros [Hf | Hf]; discriminate.
  - destruct theirs as [| x theirs].
    + cbn [fst snd List.length Z.of_nat Z.eqb].
      split; [split; [intros [r Hr]; discriminate |] |].
      { intros [_ [_ [t [Ht Hne]]]]. injection Ht as <-. congruence. }
      split; [intros r Hr; discriminate |].
      split; [intros _; split; [exact Hno | reflexivity] |].
      intros [Hf | Hf]; discriminate.
    + cbn [List.length]. rewrite Nat2Z.inj_succ.
      replace (Z.succ (Z.of_nat (List.length theirs)) =? 0)%Z with false
        by (symmetry; apply Z.eqb_neq; lia).
      cbn [fst snd]. split; [| split; [| split]].
      * split; [| intros _; eexists; reflexivity].
        intros _. split; [reflexivity |]. split; [reflexivity |].
        exists (x :: theirs). split; [reflexivity | discriminate].
      * intros result Hr. injection Hr as <-. repeat split.
      * intros Hn. exfalso. eapply Hn. reflexivity.
      * intros [Hf | Hf]; discriminate.
  - split; [split; [intros [r Hr]; discriminate
                   | intros [_ [_ [t [Ht _]]]]; discriminate] |].
    split; [intros r Hr; discriminate |].
    split; [intros _; split; [exact Hno | reflexivity] |].
    intros [Hf | Hf]; discriminate.
Qed.

End SearchFacts.

(** ** How many gaps there are *)

Module GapFacts.

Import Recommendations SpecTerms GapTerms.
Local Open Scope string_scope.

Lemma totalReleases_cons (e : GenreCount) (l : list GenreCount) :
  totalReleases (e :: l) = (count e + totalReleases l)%Z.
Proof. unfold totalReleases. simpl. apply GenreFacts.total_from. Qed.

Lemma share_count_cons (e : GenreCount) (l : list GenreCount) (g : string) :
  share_count (e :: l) g = if name e =? g then count e else share_count l g.
Proof.
  unfold share_count, tally_count. simpl. now destruct (name e =? g).
Qed.

Lemma share_count_nonneg (l : list GenreCount) (g : string) :
  (forall e, In e l -> (0 <= count e)%Z) -> (0 <= share_count l g)%Z.
Proof.
  induction l as [| e l IH]; intros H; [unfold share_count; simpl; lia |].
  rewrite share_count_cons. destruct (name e =? g).
  - apply H. now left.
  - apply IH. intros e' He'. apply H. now right.
Qed.

Lemma sum_shares_other (e : GenreCount) (l : list GenreCount)
    (names : list string) :
  ~ In (name e) names -> sum_shares (e :: l) names = sum_shares l names.
Proof.
  induction names as [| g rest IH]; intros H; simpl; [reflexivity |].
  rewrite share_count_cons, IH by (intros Hin; apply H; now right).
  destruct (String.eqb_spec (name e) g) as [Heq | _]; [| reflexivity].
  exfalso. apply H. now left.
Qed.

Lemma sum_shares_cons (e : GenreCount) (l : list GenreCount)
    (names : list string) :
  NoDup names ->
  (0 <= count e)%Z ->
  (forall x, In x l -> (0 <= count x)%Z) ->
  (sum_shares (e :: l) names <= count e + sum_shares l names)%Z.
Proof.
  intros Hnd He Hpos. induction Hnd as [| g rest Hg Hrest IH]; simpl.
  - lia.
  - rewrite share_count_cons.
    pose proof (share_count_nonneg l g Hpos).
    destruct (String.eqb_spec (name e) g) as [Heq | Hne].
    + rewrite sum_shares_other by (now rewrite Heq). lia.
    + lia.
Qed.

(** Distinct genres cannot hold more than the whole collection. *)
Lemma sum_shares_le_total (l : list GenreCount) (names : list string) :
  NoDup names ->
  (forall e, In e l -> (0 <= count e)%Z) ->
  (sum_shares l names <= totalReleases l)%Z.
Proof.
  intros Hnd. induction l as [| e l IH]; intros Hpos.
  - clear Hnd. induction names; simpl; [reflexivity | assumption].
  - rewrite totalReleases_cons.
    assert (Hl : forall x, In x l -> (0 <= count x)%Z)
      by (intros x Hx; apply Hpos; now right).
    pose proof (sum_shares_cons e l names Hnd (Hpos e (or_introl eq_refl)) Hl).
    specialize (IH Hl). lia.
Qed.

Lemma sum_shares_large (l : list GenreCount) (names : list string) (t : Z) :
  (forall g, In g names -> (t <= 10 * share_count l g)%Z) ->
  (Z.of_nat (List.length names) * t <= 10 * sum_shares l names)%Z.
Proof.
  induction names as [| g rest IH]; intros H; [simpl; lia |].
  cbn [List.length sum_shares]. rewrite Nat2Z.inj_succ.
  pose proof (H g (or_introl eq_refl)).
  assert (Z.of_nat (List.length rest) * t <= 10 * sum_shares l rest)%Z
    by (apply IH; intros x Hx; apply H; now right).
  lia.
Qed.

Lemma filter_negb_length {A} (f : A -> bool) (l : list A) :
  (List.length (filter f l) + List.length (filter (fun x => negb (f x)) l)
   = List.length l)%nat.
Proof.
  induction l as [| x l IH]; simpl; [reflexivity |].
  destruct (f x); simpl; lia.
Qed.

(** X15.  A tally of counts that are not negative, with a positive
    total, always has at least 2 gaps: no more than 10 genres can hold
    a tenth of the collection each, and there are 12 major genres. *)
Theorem at_least_two_gaps (genres : list GenreCount) :
  (forall e, In e genres -> (0 <= count e)%Z) ->
  (0 < totalReleases genres)%Z ->
  (2 <= List.length (gaps genres))%nat.
Proof.
  intros Hpos Ht.
  set (strong := filter (fun g => negb (gap_candidate genres g)) MAJOR_GENRES).
  assert (Hnd : NoDup strong)
    by apply JsFacts.filter_NoDup, GenreFacts.MAJOR_GENRES_NoDup.
  assert (Hshare : forall g, In g strong ->
            (totalReleases genres <= 10 * share_count genres g)%Z).
  { intros g Hg. apply filter_In in Hg. destruct Hg as [_ Hg].
    apply negb_true_iff in Hg. unfold gap_candidate in Hg. unfold share_count.
    destruct (tally_count genres g) as [c |]; [| discriminate].
    apply Z.ltb_ge in Hg. rewrite GenreFacts.total_is_sum. lia. }
  pose proof (sum_shares_large genres strong _ Hshare) as Hlarge.
  pose proof (sum_shares_le_total genres strong Hnd Hpos) as Hsmall.
  assert (Hten : (List.length strong <= 10)%nat) by nia.
  pose proof (filter_negb_length (gap_candidate genres) MAJOR_GENRES) as Hsplit.
  fold strong in Hsplit. change (List.length MAJOR_GENRES) with 12%nat in Hsplit.
  unfold gaps, Js.slice0.
  rewrite (filter_ext _ _ (fun g => GenreFacts.is_gap_candidate genres g Ht)).
  rewrite length_firstn. lia.
Qed.

Lemma at_least_two_gaps_witness :
  gaps ten_tenths = ["Latin"; "Stage & Screen"]
  /\ (2 <= List.length (gaps ten_tenths))%nat.
Proof.
  split; [reflexivity |].
  apply at_least_two_gaps; [| reflexivity].
  intros e He. unfold ten_tenths in He. apply in_map_iff in He.
  destruct He as [g [<- _]]. simpl. lia.
Defined.

End GapFacts.
